(** * sager-frontend: drone-state reconciliation, classification, statistics,
      path smoothing and selection

    A shallow embedding of the JavaScript of
      - src/pages/MapPage.jsx       (isDroneActive, calculateDroneStats,
                                     mergeDroneData, handleMessage, the
                                     statistics effect)
      - the MapContainer component  (createCurvedPath, getDroneStatus,
                                     resetSelection, the markers effect with
                                     its marker table, flight paths and
                                     camera flight)
      - src/components/dronedetails/DroneMenu.jsx (getStatusColor,
                                     getDroneItemClasses)
    and the properties of it that the specification states.

    JavaScript numbers are IEEE 754 binary64 values: they are embedded as
    Rocq's primitive floats, whose operations are the same binary64
    operations.  Objects with an open set of keys (a feature's [properties])
    are finite maps from key to value; a property read of a missing key
    yields [undefined].  A JavaScript exception is the [TypeError] result.

    The page is a state machine over timed events (a selection, a map
    interaction, a feed message): React state and refs are the fields of
    the state, an effect runs when one of its dependencies has changed,
    and the pending [setTimeout] callbacks are kept with their due times.
    The marker table is an object created as [{}], so a read of it also
    finds the properties every object inherits.  The calls into the
    mapping library are taken to return. *)

From Stdlib Require Import Floats ZArith Ascii String.
From stdpp Require Import base option list gmap strings.

Set Default Proof Using "Type".

(** ** JavaScript values and exceptions *)

Module Js.

(** The outcome of evaluating code that may throw.  Every exception the
    modelled code can raise is a [TypeError] (a property read on
    [undefined], or a call of a method the value does not have). *)
Inductive result (A : Type) : Type :=
| Ok (a : A)
| TypeError.
Global Arguments Ok {A} a.
Global Arguments TypeError {A}.

Global Instance result_ret : MRet result := λ A a, Ok a.
Global Instance result_bind : MBind result := λ A B f m,
  match m with
  | Ok a => f a
  | TypeError => TypeError
  end.
Global Instance result_fmap : FMap result := λ A B f m,
  match m with
  | Ok a => Ok (f a)
  | TypeError => TypeError
  end.

(** Reading a property of a value that may be [undefined]:
    [undefined.p] throws. *)
Definition defined {A} (o : option A) : result A :=
  match o with
  | Some a => Ok a
  | None => TypeError
  end.

(** [Array.prototype.filter] with a callback that may throw. *)
Fixpoint filterM {A} (p : A → result bool) (l : list A) : result (list A) :=
  match l with
  | [] => Ok []
  | x :: l' =>
      b ← p x;
      r ← filterM p l';
      Ok (if b : bool then x :: r else r)
  end.

(** [Array.prototype.forEach] threading the array the callback mutates. *)
Fixpoint forEachM {A S} (f : S → A → result S) (l : list A) (s : S)
  : result S :=
  match l with
  | [] => Ok s
  | x :: l' => s' ← f s x; forEachM f l' s'
  end.

(** Primitive values stored under the keys of a feature. *)
Inductive prim : Type :=
| PUndef
| PNum (x : float)
| PStr (s : string).

(** [a === b] on primitives. *)
Definition strict_eq (a b : prim) : bool :=
  match a, b with
  | PUndef, PUndef => true
  | PNum x, PNum y => PrimFloat.eqb x y
  | PStr s, PStr t => String.eqb s t
  | _, _ => false
  end.

(** An object used as a key/value bag. *)
Abbreviation obj := (gmap string prim).

(** [o.k]: a missing key reads as [undefined]. *)
Definition get (o : obj) (k : string) : prim := default PUndef (o !! k).

(** [{...a, ...b}]: the keys of both, those of [b] winning. *)
Definition spread2 (a b : obj) : obj := b ∪ a.

(** [s.split(sep)] for a one-character separator: always at least one
    segment. *)
Fixpoint split (sep : ascii) (s : string) : list string :=
  match s with
  | EmptyString => [EmptyString]
  | String c s' =>
      if Ascii.eqb c sep then EmptyString :: split sep s'
      else match split sep s' with
           | seg :: segs => String c seg :: segs
           | [] => [String c EmptyString]
           end
  end.

(** [s.startsWith(p)]. *)
Definition startsWith (s p : string) : bool := String.prefix p s.

(** Truthiness of [x?.m()] when [m] returns a boolean: [undefined] is
    falsy. *)
Definition truthy (v : option bool) : bool := default false v.

(** [Array.prototype.findIndex]; [None] stands for [-1]. *)
Fixpoint findIndex {A} (p : A → bool) (l : list A) : option nat :=
  match l with
  | [] => None
  | x :: l' => if p x then Some 0 else S <$> findIndex p l'
  end.

End Js.
Import Js.

(** ** Status classification *)

(** [DRONE_STATUS.ACTIVE_PREFIX] of MapPage.jsx. *)
Definition ACTIVE_PREFIX : string := "B".

(** [COLORS] of MapContainer.jsx. *)
Definition COLOR_ACTIVE : string := "#00FF00".
Definition COLOR_INACTIVE : string := "#FF0000".

(** [registration.split("-")[1]?.startsWith(p)]: [None] is [undefined],
    the value of the optional chain when there is no second segment.  The
    method call throws when [registration] is not a string. *)
Definition secondSegmentStartsWith (registration : prim) (p : string)
  : result (option bool) :=
  match registration with
  | PStr s => Ok ((λ seg, startsWith seg p) <$> (split "-" s !! 1))
  | _ => TypeError
  end.

(** MapPage.jsx, [isDroneActive]:
    [!registration.split("-")[1]?.startsWith(DRONE_STATUS.ACTIVE_PREFIX)]. *)
Definition isDroneActive (registration : prim) : result bool :=
  v ← secondSegmentStartsWith registration ACTIVE_PREFIX;
  Ok (negb (truthy v)).

Record DroneStatus := {
  isFlyable : option bool;
  color : string;
  status : string;
}.

(** MapContainer.jsx, [getDroneStatus]. *)
Definition getDroneStatus (registration : prim) : result DroneStatus :=
  v ← secondSegmentStartsWith registration "B";
  Ok {| isFlyable := v;
        color := if truthy v then COLOR_ACTIVE else COLOR_INACTIVE;
        status := if truthy v then "Active" else "Inactive" |}.

(** DroneMenu.jsx, [getStatusColor]. *)
Definition getStatusColor (registration : prim) : result string :=
  v ← secondSegmentStartsWith registration "B";
  Ok (if truthy v then "bg-[#5CFC00]" else "bg-[#F9000E]").

(** What a caller reads off the classifier of the map renderer: the drone
    is active when [status] is ["Active"]. *)
Definition classifiedActive (st : DroneStatus) : bool :=
  String.eqb (status st) "Active".

(** ** The drone state store (MapPage.jsx) *)

(** A coordinate pair [[lng, lat]]. *)
Definition point : Type := float * float.

(** A position as the store records it: the value of
    [geometry.coordinates], which is [undefined] ([None]) when the feed
    left the coordinates out. *)
Definition position : Type := option point.

(** A feature's [geometry] object. *)
Record Geometry := {
  g_type : prim;
  coordinates : position;
}.

(** One element of [newData.features], as the feed supplies it: the
    [geometry] and [properties] objects may be absent ([None]); [f_rest]
    holds the other top-level keys (such as [type]). *)
Record Feature := {
  f_rest : obj;
  f_geometry : option Geometry;
  f_properties : option obj;
}.

(** An element of the [droneData] array.  Every element is built by
    [mergeDroneData], which reads [geometry.coordinates] and
    [properties.registration] of the feature before it stores it, so the
    two objects are present. *)
Record DroneRecord := {
  rest : obj;
  geometry : Geometry;
  properties : obj;
  positions : list position;
}.

(** [drone.properties.registration]. *)
Definition registration_of (drone : DroneRecord) : prim :=
  get (properties drone) "registration".

(** [drone.geometry.coordinates], the current position. *)
Definition currentPosition (drone : DroneRecord) : position :=
  coordinates (geometry drone).

(** The callback of [newData.features.forEach] in [mergeDroneData]:
    one incoming feature merged into the [updated] array. *)
Definition mergeFeature (updated : list DroneRecord) (newDrone : Feature)
  : result (list DroneRecord) :=
  props ← defined (f_properties newDrone);
  let registration := get props "registration" in
  let existingIndex :=
    findIndex (λ drone, strict_eq (registration_of drone) registration)
              updated in
  match existingIndex with
  | Some i =>
      (* [updated[existingIndex]]: the index found is in range *)
      existing ← defined (updated !! i);
      geom ← defined (f_geometry newDrone);
      Ok (<[i := {| rest := rest existing;
                    positions := positions existing ++ [coordinates geom];
                    geometry := geom;
                    properties := spread2 (properties existing) props |}]>
            updated)
  | None =>
      geom ← defined (f_geometry newDrone);
      Ok (updated ++ [ {| rest := f_rest newDrone;
                          geometry := geom;
                          properties := props;
                          positions := [coordinates geom] |} ])
  end.

(** MapPage.jsx, [mergeDroneData]; [features] is [newData.features]. *)
Definition mergeDroneData (previousData : list DroneRecord)
  (features : list Feature) : result (list DroneRecord) :=
  forEachM mergeFeature features previousData.

(** The store states the page can be in: [useState([])], then
    [setDroneData(previousData => mergeDroneData(previousData, data))] for
    each message whose merge returns. *)
Inductive reachable : list DroneRecord → Prop :=
| reachable_init : reachable []
| reachable_merge s features s' :
    reachable s →
    mergeDroneData s features = Ok s' →
    reachable s'.

(** ** Statistics (MapPage.jsx) *)

Record Stats := {
  active : nat;
  inactive : nat;
  total : nat;
}.

(** MapPage.jsx, [calculateDroneStats]. *)
Definition calculateDroneStats (droneData : list DroneRecord) : result Stats :=
  activeDrones ←
    filterM (λ drone, isDroneActive (registration_of drone)) droneData;
  inactiveDrones ←
    filterM (λ drone, negb <$> isDroneActive (registration_of drone)) droneData;
  Ok {| active := length activeDrones;
        inactive := length inactiveDrones;
        total := length droneData |}.

(** ** The curve smoother (MapContainer.jsx) *)

(** [DRONE_CONFIG]: 0.3 and 0.01 are the binary64 values nearest to the
    decimal literals of the source. *)
Definition CURVE_STEPS : nat := 20.
Definition CURVE_OFFSET_FACTOR : float := 0x1.3333333333333p-2%float.
Definition MAX_CURVE_OFFSET : float := 0x1.47ae147ae147bp-7%float.

(** The loop counter [t] as the number it is in JavaScript. *)
Definition number (n : nat) : float := of_uint63 (Uint63.of_Z (Z.of_nat n)).

(** [Math.min(a, b)]: [NaN] when either is [NaN], and [-0] below [+0]. *)
Definition Math_min (a b : float) : float :=
  if is_nan a || is_nan b then nan
  else if (a <? b)%float then a
  else if (b <? a)%float then b
  else if is_zero a && get_sign a then a
  else b.

(** [p[0]] and [p[1]] of a coordinate pair. *)
Definition lng (p : point) : float := fst p.
Definition lat (p : point) : float := snd p.

(** The control point [[controlLng, controlLat]] of the segment from
    [start] to [end_]. *)
Definition controlPoint (start end_ : point) : point :=
  let midLat := ((lat start + lat end_) / 2)%float in
  let midLng := ((lng start + lng end_) / 2)%float in
  let dx := (lng end_ - lng start)%float in
  let dy := (lat end_ - lat start)%float in
  let distance := sqrt (dx * dx + dy * dy)%float in
  let curveOffset :=
    Math_min (distance * CURVE_OFFSET_FACTOR)%float MAX_CURVE_OFFSET in
  let controlLng := (midLng - dy * curveOffset)%float in
  let controlLat := (midLat + dx * curveOffset)%float in
  (controlLng, controlLat).

(** The point [[lng, lat]] computed in the body of the inner loop. *)
Definition bezier (start control end_ : point) (t : nat) : point :=
  let u := (number t / number CURVE_STEPS)%float in
  let u2 := (u * u)%float in
  let u3 := (1 - u)%float in
  let u4 := (u3 * u3)%float in
  let lat' :=
    (u4 * lat start + 2 * u3 * u * lat control + u2 * lat end_)%float in
  let lng' :=
    (u4 * lng start + 2 * u3 * u * lng control + u2 * lng end_)%float in
  (lng', lat').

(** Iteration [i] of the outer loop: the points it pushes, for
    [t = 0 .. CURVE_STEPS] under the guard [t > 0 || i === 0]. *)
Definition segment (i : nat) (start end_ : point) : list point :=
  let control := controlPoint start end_ in
  t ← seq 0 (S CURVE_STEPS);
  if (0 <? t) || (i =? 0) then [bezier start control end_ t] else [].

(** The outer loop from index [i] on, over the coordinates from
    [coordinates[i]] on. *)
Fixpoint segments (i : nat) (coordinates : list point) : list point :=
  match coordinates with
  | start :: ((end_ :: _) as tl) => segment i start end_ ++ segments (S i) tl
  | _ => []
  end.

(** MapContainer.jsx, [createCurvedPath]. *)
Definition createCurvedPath (coordinates : list point) : list point :=
  match coordinates with
  | first :: _ :: _ => first :: segments 0 coordinates
  | _ => coordinates
  end.

(** [p[0] === q[0] && p[1] === q[1]]: the two points have the same
    numbers. *)
Definition same_numbers (p q : point) : bool :=
  (lng p =? lng q)%float && (lat p =? lat q)%float.

(** Neither [NaN] nor an infinity, in both coordinates. *)
Definition finite_point (p : point) : bool :=
  is_finite (lng p) && is_finite (lat p).

(** No two neighbours of the sequence have the same numbers. *)
Fixpoint no_adjacent_equal (l : list point) : bool :=
  match l with
  | p :: ((q :: _) as tl) => negb (same_numbers p q) && no_adjacent_equal tl
  | _ => true
  end.

(** ** The flight path of the markers effect (MapContainer) *)

(** The outer loop of [createCurvedPath] over an array whose elements may
    be [undefined], as those of [drone.positions] may be: iteration [i]
    first reads [start[1]] and [end[1]], a TypeError when [start] or [end_]
    is [undefined]. *)
Fixpoint segments_array (i : nat) (coordinates : list position)
  : result (list point) :=
  match coordinates with
  | start :: ((end_ :: _) as tl) =>
      start' ← defined start;
      end' ← defined end_;
      pushed ← segments_array (S i) tl;
      Ok (segment i start' end' ++ pushed)
  | _ => Ok []
  end.

(** [createCurvedPath] on such an array: the seed is [coordinates[0]] as
    it is, and an array of fewer than two elements is returned
    unchanged. *)
Definition createCurvedPath_array (coordinates : list position)
  : result (list position) :=
  match coordinates with
  | first :: _ :: _ =>
      pushed ← segments_array 0 coordinates;
      Ok (first :: (Some <$> pushed))
  | _ => Ok coordinates
  end.

(** The "Flight Path Rendering" branch of the effect for one drone: the
    coordinates of the line it sets for the drone, [None] when
    [drone.positions.length > 1] fails and no line is set. *)
Definition flightPath (drone : DroneRecord) : result (option (list position)) :=
  if 1 <? length (positions drone)
  then Some <$> createCurvedPath_array (positions drone)
  else Ok None.

(** ** The page: selection, feed and effects (MapPage.jsx, MapContainer) *)

(** [MAP_CONFIG], in milliseconds. *)
Definition FLY_DURATION : Z := 1000.
Definition ANIMATION_BUFFER : Z := 1100.

(** The user interactions the map reports and [MapContainer] listens to;
    [BackgroundClick] is a [click] that hit neither a marker nor a rendered
    feature. *)
Inductive interaction :=
| DragStart | Wheel | BoxZoomStart | DoubleClick | TouchStart
| BackgroundClick.

(** What happens to the page: a click on the marker or on the list item
    of a drone, an interaction with the map, a message of the feed. *)
Inductive event :=
| Select (reg : string)
| Interact (kind : interaction)
| Message (features : list Feature).

(** The state of the page and of its map: [selectedDrone] ([None] is
    [null]), [droneData] and [droneStats] are the state of [MapPage];
    [mapRef] tells whether the map instance exists, [markersRef] holds the
    own keys of the marker table (an object created as [{}]),
    [isProgrammaticMove] is the guard flag, [timers] the due times of the
    pending [setTimeout] callbacks and [flights] the [flyTo] calls made,
    each with its start time. *)
Record MapState := {
  selectedDrone : option string;
  droneData : list DroneRecord;
  droneStats : Stats;
  mapRef : bool;
  markersRef : gset string;
  isProgrammaticMove : bool;
  timers : list Z;
  flights : list (string * Z);
}.

(** The selection state the specification names. *)
Inductive Selection :=
| Unselected
| Selected (reg : string).

Definition selection (s : MapState) : Selection :=
  match selectedDrone s with
  | None => Unselected
  | Some reg => Selected reg
  end.

(** A string is truthy unless it is empty. *)
Definition truthy_string (s : string) : bool :=
  negb (String.eqb s "").

(** The timeout callbacks due by [now] run before whatever happens at
    [now]; each one clears the guard flag. *)
Definition fireTimers (now : Z) (s : MapState) : MapState :=
  let due := filter (λ d, (d ≤ now)%Z) (timers s) in
  {| selectedDrone := selectedDrone s;
     droneData := droneData s;
     droneStats := droneStats s;
     mapRef := mapRef s;
     markersRef := markersRef s;
     isProgrammaticMove :=
       match due with
       | [] => isProgrammaticMove s
       | _ :: _ => false
       end;
     timers := filter (λ d, (now < d)%Z) (timers s);
     flights := flights s |}.

(** The property names that every object inherits from
    [Object.prototype]; each of them reads as a function or an object,
    which is truthy. *)
Definition OBJECT_PROTOTYPE_KEYS : list string :=
  ["constructor"; "__defineGetter__"; "__defineSetter__"; "hasOwnProperty";
   "__lookupGetter__"; "__lookupSetter__"; "isPrototypeOf";
   "propertyIsEnumerable"; "toString"; "valueOf"; "__proto__";
   "toLocaleString"].

(** What [markersRef.current[key]] reads: an entry [{marker, element}]
    stored under the key, an inherited property, or [undefined]. *)
Inductive slot :=
| Own
| Inherited
| Absent.

Definition markerSlot (markers : gset string) (key : string) : slot :=
  if bool_decide (key ∈ markers) then Own
  else if bool_decide (key ∈ OBJECT_PROTOTYPE_KEYS) then Inherited
  else Absent.

(** Only [undefined] is falsy among them. *)
Definition truthy_slot (v : slot) : bool :=
  match v with
  | Absent => false
  | _ => true
  end.

(** The body of [droneData.forEach] in the markers effect, for one drone:
    [getDroneStatus(reg)] throws when the registration is not a string; an
    existing entry is moved and a missing one is created and stored, but
    on an inherited property [.marker] is [undefined] and
    [.marker.setLngLat] throws; then the flight path is computed.  The
    calls into the mapping library ([setLngLat], [addTo], [getSource],
    [setData], [addSource], [addLayer]) are taken to return. *)
Definition renderDrone (markers : gset string) (drone : DroneRecord)
  : result (gset string) :=
  getDroneStatus (registration_of drone);;
  match registration_of drone with
  | PStr reg =>
      markers' ← match markerSlot markers reg with
                 | Own => Ok markers
                 | Inherited => TypeError
                 | Absent => Ok ({[reg]} ∪ markers)
                 end;
      flightPath drone;;
      Ok markers'
  | _ => TypeError
  end.

(** The "Drone Markers and Paths Update" effect, run at time [now] after a
    render in which [droneData] or [selectedDrone] changed.  Without a map
    it returns at once.  Otherwise every drone is rendered, and when the
    selected registration is truthy, reads as truthy in the marker table
    and is the registration of a record, the guard flag is raised, the
    camera flies to the drone ([flyTo] is taken to return) and a timeout is
    set to lower the flag. *)
Definition markersEffect (now : Z) (s : MapState) : result MapState :=
  if mapRef s then
    markers ← forEachM renderDrone (droneData s) (markersRef s);
    let fly :=
      match selectedDrone s with
      | Some reg =>
          truthy_string reg && truthy_slot (markerSlot markers reg)
          && existsb (λ d, strict_eq (registration_of d) (PStr reg))
                     (droneData s)
      | None => false
      end in
    Ok {| selectedDrone := selectedDrone s;
          droneData := droneData s;
          droneStats := droneStats s;
          mapRef := mapRef s;
          markersRef := markers;
          isProgrammaticMove := if fly then true else isProgrammaticMove s;
          timers :=
            if fly then timers s ++ [(now + ANIMATION_BUFFER)%Z] else timers s;
          flights :=
            match selectedDrone s with
            | Some reg => if fly then flights s ++ [(reg, now)] else flights s
            | None => flights s
            end |}
  else Ok s.

(** [setSelectedDrone(v)]: a state that does not change causes no render
    and no effect; a changed one re-runs the markers effect, of which
    [selectedDrone] is a dependency. *)
Definition setSelectedDrone (now : Z) (v : option string) (s : MapState)
  : result MapState :=
  if bool_decide (selectedDrone s = v) then Ok s
  else markersEffect now
         {| selectedDrone := v;
            droneData := droneData s;
            droneStats := droneStats s;
            mapRef := mapRef s;
            markersRef := markersRef s;
            isProgrammaticMove := isProgrammaticMove s;
            timers := timers s;
            flights := flights s |}.

(** MapContainer.jsx, [resetSelection]. *)
Definition resetSelection (now : Z) (s : MapState) : result MapState :=
  if isProgrammaticMove s then Ok s
  else setSelectedDrone now None s.

(** MapPage.jsx, [handleMessage]:
    [setDroneData(previousData => mergeDroneData(previousData, data))].
    The new array always differs from the old one, so the page renders
    again and the effects that depend on [droneData] run: the markers
    effect of [MapContainer], then the statistics effect of [MapPage]. *)
Definition handleMessage (now : Z) (features : list Feature) (s : MapState)
  : result MapState :=
  data ← mergeDroneData (droneData s) features;
  s' ← markersEffect now
         {| selectedDrone := selectedDrone s;
            droneData := data;
            droneStats := droneStats s;
            mapRef := mapRef s;
            markersRef := markersRef s;
            isProgrammaticMove := isProgrammaticMove s;
            timers := timers s;
            flights := flights s |};
  stats ← calculateDroneStats data;
  Ok {| selectedDrone := selectedDrone s';
        droneData := droneData s';
        droneStats := stats;
        mapRef := mapRef s';
        markersRef := markersRef s';
        isProgrammaticMove := isProgrammaticMove s';
        timers := timers s';
        flights := flights s' |}.

(** One event arriving at time [now]; an exception ends the page. *)
Definition handle (now : Z) (ev : event) (s : MapState) : result MapState :=
  let s := fireTimers now s in
  match ev with
  | Select reg => setSelectedDrone now (Some reg) s
  | Interact _ => resetSelection now s
  | Message features => handleMessage now features s
  end.

(** A session: timed events handled in order. *)
Definition run (evs : list (Z * event)) (s : MapState) : result MapState :=
  forEachM (λ s e, handle e.1 e.2 s) evs s.

(** The page after mount: [useState([])], [useState(null)], zero
    statistics, a map, an empty marker table, the flag down. *)
Definition mounted : MapState :=
  {| selectedDrone := None;
     droneData := [];
     droneStats := {| active := 0; inactive := 0; total := 0 |};
     mapRef := true;
     markersRef := ∅;
     isProgrammaticMove := false;
     timers := [];
     flights := [] |}.

(** ** Vocabulary of the properties *)

(** The string has no occurrence of the character. *)
Fixpoint lacks (c : ascii) (s : string) : bool :=
  match s with
  | EmptyString => true
  | String d s' => negb (Ascii.eqb d c) && lacks c s'
  end.

(** The registration is a string. *)
Definition is_string (v : prim) : bool :=
  match v with
  | PStr _ => true
  | _ => false
  end.

(** The registration is a number. *)
Definition is_number (v : prim) : bool :=
  match v with
  | PNum _ => true
  | _ => false
  end.

(** The invariant of a record's history: it is not empty and ends with
    the current position. *)
Definition history_ok (drone : DroneRecord) : Prop :=
  positions drone ≠ [] ∧ last (positions drone) = Some (currentPosition drone).

(** The number of positions recorded in the whole store. *)
Definition total_positions (s : list DroneRecord) : nat :=
  sum_list_with (λ drone, length (positions drone)) s.

(** The store has a record with registration [v] whose history contains
    the position [c]. *)
Definition recorded (s : list DroneRecord) (v : prim) (c : position) : Prop :=
  ∃ drone, drone ∈ s ∧ registration_of drone = v ∧ c ∈ positions drone.

(** The update has both the [geometry] and the [properties] object. *)
Definition has_objects (u : Feature) : bool :=
  bool_decide (is_Some (f_geometry u)) && bool_decide (is_Some (f_properties u)).

(** [u.properties.registration] and [u.geometry.coordinates] of an update
    that has both objects ([undefined] otherwise). *)
Definition update_registration (u : Feature) : prim :=
  from_option (λ props, get props "registration") PUndef (f_properties u).
Definition update_position (u : Feature) : position :=
  f_geometry u ≫= coordinates.

(** ** Sample data *)

Definition point_geometry (p : position) : Geometry :=
  {| g_type := PStr "Point"; coordinates := p |}.

(** A feature of the feed with a registration, a name and a position. *)
Definition feature (reg name : string) (p : point) : Feature :=
  {| f_rest := {[ "type" := PStr "Feature" ]};
     f_geometry := Some (point_geometry (Some p));
     f_properties :=
       Some {[ "registration" := PStr reg; "Name" := PStr name ]} |}.

(** A stored record with the given attributes and a one-point history. *)
Definition record (props : obj) (p : point) : DroneRecord :=
  {| rest := {[ "type" := PStr "Feature" ]};
     geometry := point_geometry (Some p);
     properties := props;
     positions := [Some p] |}.

(** An update that names no registration. *)
Definition feature_without_registration : Feature :=
  {| f_rest := ∅;
     f_geometry := Some (point_geometry (Some (1, 2)%float));
     f_properties := Some {[ "Name" := PStr "Dji Mavic" ]} |}.

(** An update with no [geometry] object at all. *)
Definition feature_without_geometry : Feature :=
  {| f_rest := ∅;
     f_geometry := None;
     f_properties := Some {[ "registration" := PStr "R9" ]} |}.

(** The record of drone R1 after its first update at (10, 20), with a
    pilot among its attributes. *)
Definition stored_R1 : DroneRecord :=
  record {[ "registration" := PStr "R1"; "Name" := PStr "Dji Mavic";
            "pilot" := PStr "Besher" ]} (10, 20)%float.

(** A second update for R1, at (11, 21), that names no pilot. *)
Definition update_R1 : Feature := feature "R1" "Dji Air" (11, 21)%float.
Definition update_R1_properties : obj :=
  {[ "registration" := PStr "R1"; "Name" := PStr "Dji Air" ]}.

(** ** The list view (DroneMenu.jsx) *)

(** [selectedDrone === registration], with [selectedDrone] the page state
    ([None] is [null], which is equal to no registration). *)
Definition isSelected (selected : option string) (registration : prim) : bool :=
  match selected with
  | Some reg => strict_eq (PStr reg) registration
  | None => false
  end.

(** DroneMenu.jsx, [getDroneItemClasses]. *)
Definition getDroneItemClasses (selected : option string) (registration : prim)
  : string :=
  "border-b border-gray-700 cursor-pointer transition-colors "
  ++ (if isSelected selected registration
      then "bg-gray-600" else "hover:bg-gray-700").

(** ** Further vocabulary *)

(** [r'] is a later state of the record [r]: the history of [r] is the
    beginning of the history of [r'], the keys beside [geometry],
    [properties] and [positions] are the same, and every attribute key of
    [r] is still an attribute key of [r']. *)
Definition extends (r r' : DroneRecord) : Prop :=
  positions r `prefix_of` positions r'
  ∧ rest r' = rest r
  ∧ ∀ k, is_Some (properties r !! k) → is_Some (properties r' !! k).

(** No two records of the store have registrations that are [===]. *)
Definition distinct_registrations (s : list DroneRecord) : Prop :=
  ForallOrdPairs
    (λ a b, strict_eq (registration_of a) (registration_of b) = false) s.

(** The record is one the map shows as active ([getDroneStatus] returns
    the status ["Active"]). *)
Definition shownActive (drone : DroneRecord) : bool :=
  match getDroneStatus (registration_of drone) with
  | Ok st => classifiedActive st
  | TypeError => false
  end.

(** The classes of a highlighted list item. *)
Definition SELECTED_CLASSES : string :=
  "border-b border-gray-700 cursor-pointer transition-colors bg-gray-600".

(** The states the page reaches from its mount, as long as nothing
    throws. *)
Definition session (s : MapState) : Prop :=
  ∃ evs, run evs mounted = Ok s.

(** The drone is on the map: its registration is a string that has a
    marker of its own, and its flight path can be computed. *)
Definition on_map (markers : gset string) (drone : DroneRecord) : Prop :=
  ∃ reg path,
    registration_of drone = PStr reg
    ∧ reg ∈ markers
    ∧ flightPath drone = Ok path.

(** The page has a map and shows every drone of [droneData]. *)
Definition rendered (s : MapState) : Prop :=
  mapRef s = true ∧ Forall (on_map (markersRef s)) (droneData s).

(** [selectedDrone] would be found in [droneData] by the effect. *)
Definition tracked (s : MapState) (reg : string) : bool :=
  existsb (λ d, strict_eq (registration_of d) (PStr reg)) (droneData s).

(** The camera follows the selection: the selected registration is not
    empty and is the registration of a record. *)
Definition follows (s : MapState) : bool :=
  match selectedDrone s with
  | Some reg => truthy_string reg && tracked s reg
  | None => false
  end.

(** The feed's first message of the examples: the drones R1 and R2. *)
Definition first_message : list Feature :=
  [feature "R1" "Dji Mavic" (10, 20)%float;
   feature "R2" "Dji Air" (11, 21)%float].

(** A store with the two drones of the statistics example. *)
Definition store_two : list DroneRecord :=
  [record {[ "registration" := PStr "R1-B1"; "Name" := PStr "Dji Mavic" ]}
          (10, 20)%float;
   record {[ "registration" := PStr "R2-A1"; "Name" := PStr "Dji Air" ]}
          (11, 21)%float].

(** A raised flag has a timeout pending that will lower it. *)
Definition armed (s : MapState) : Prop :=
  isProgrammaticMove s = true → timers s ≠ [].

(** No marker is stored under a name that objects inherit. *)
Definition plain_markers (markers : gset string) : Prop :=
  ∀ key, key ∈ OBJECT_PROTOTYPE_KEYS → key ∉ markers.

(** What holds of the page between two events. *)
Definition consistent (s : MapState) : Prop :=
  rendered s
  ∧ plain_markers (markersRef s)
  ∧ armed s
  ∧ reachable (droneData s)
  ∧ calculateDroneStats (droneData s) = Ok (droneStats s).

(** ** Counting and sample records *)

(** The number of positions recorded under the registrations that are
    [===] to [v]. *)
Definition history_count (s : list DroneRecord) (v : prim) : nat :=
  sum_list_with
    (λ drone, if strict_eq (registration_of drone) v
              then length (positions drone) else 0) s.

(** The record of R1 after its two updates. *)
Definition flown_R1 : DroneRecord :=
  {| rest := {[ "type" := PStr "Feature" ]};
     geometry := point_geometry (Some (11, 21)%float);
     properties :=
       spread2 {[ "registration" := PStr "R1"; "Name" := PStr "Dji Mavic" ]}
               update_R1_properties;
     positions := [Some (10, 20)%float; Some (11, 21)%float] |}.

(** * Properties *)

(** ** Splitting a registration *)

Section Split.

Variable sep : ascii.

Lemma split_nonempty (s : string) : ∃ seg segs, split sep s = seg :: segs.
Proof.
  induction s as [|c s IH]; simpl; [by eauto|].
  destruct (Ascii.eqb c sep); [by eauto|].
  destruct IH as (seg & segs & ->). by eauto.
Qed.

(** A string without the separator is a single segment. *)
Lemma split_lacks (s : string) : lacks sep s = true → split sep s = [s].
Proof.
  induction s as [|c s IH]; simpl; [done|].
  intros [Hc Hs]%andb_prop. apply negb_true_iff in Hc. rewrite Hc.
  by rewrite (IH Hs).
Qed.

(** The first separator ends the first segment. *)
Lemma split_app (x y : string) :
  lacks sep x = true →
  split sep (x ++ String sep y) = x :: split sep y.
Proof.
  induction x as [|c x IH]; simpl.
  - intros _. by rewrite Ascii.eqb_refl.
  - intros [Hc Hx]%andb_prop. apply negb_true_iff in Hc. rewrite Hc.
    by rewrite (IH Hx).
Qed.

(** A segment that starts with another character than the separator. *)
Lemma split_head (c : ascii) (s : string) :
  Ascii.eqb c sep = false →
  ∃ seg segs, split sep (String c s) = String c seg :: segs.
Proof.
  intros Hc. simpl. rewrite Hc.
  destruct (split_nonempty s) as (seg & segs & ->). by eauto.
Qed.

End Split.

(** ** The status classifier *)

(** [s.startsWith(d)] for a one-character [d] compares the first
    character. *)
Lemma startsWith_char (c d : ascii) (s : string) :
  startsWith (String c s) (String d "") = Ascii.eqb c d.
Proof.
  unfold startsWith.
  change (String.prefix (String d "") (String c s))
    with (if ascii_dec d c then String.prefix "" s else false).
  destruct (ascii_dec d c) as [<-|Hne].
  - rewrite Ascii.eqb_refl. by destruct s.
  - symmetry. apply Ascii.eqb_neq. congruence.
Qed.

(** The optional chain of the classifiers on a registration [x-ctl] whose
    first segment is [x]: the second segment starts with the character
    [c], which is compared with the marker. *)
Lemma secondSegment_marked (x : string) (c : ascii) (tl : string) :
  lacks "-" x = true →
  Ascii.eqb c "-" = false →
  secondSegmentStartsWith (PStr (x ++ String "-" (String c tl))) "B"
  = Ok (Some (Ascii.eqb c "B")).
Proof.
  intros Hx Hc. unfold secondSegmentStartsWith.
  rewrite (split_app _ _ _ Hx).
  destruct (split_head "-" c tl Hc) as (seg & segs & ->). simpl.
  do 2 f_equal. apply startsWith_char.
Qed.

(** With no separator there is no second segment: the chain is
    [undefined]. *)
Lemma secondSegment_missing (s p : string) :
  lacks "-" s = true →
  secondSegmentStartsWith (PStr s) p = Ok None.
Proof.
  intros Hs. unfold secondSegmentStartsWith. by rewrite (split_lacks _ _ Hs).
Qed.

(** On a string the chain never throws. *)
Lemma secondSegment_string (s p : string) :
  ∃ v, secondSegmentStartsWith (PStr s) p = Ok v.
Proof. unfold secondSegmentStartsWith. by eauto. Qed.

(** C3. The status classifier returns active on every registration
    [X-B...] (second segment starting with B), inactive on every
    registration [X-A...] and on every registration with no second segment,
    and on a registration string it never raises.  This holds of
    [getDroneStatus], the classifier of the map, and of [getStatusColor],
    its copy in the list view (green for active, red for inactive). *)
Theorem getDroneStatus_classifies (x tl s : string) :
  lacks "-" x = true →
  lacks "-" s = true →
  (getDroneStatus (PStr (x ++ "-B" ++ tl))
   = Ok {| isFlyable := Some true; color := COLOR_ACTIVE; status := "Active" |}
   ∧ getDroneStatus (PStr (x ++ "-A" ++ tl))
     = Ok {| isFlyable := Some false; color := COLOR_INACTIVE;
             status := "Inactive" |}
   ∧ getDroneStatus (PStr s)
     = Ok {| isFlyable := None; color := COLOR_INACTIVE;
             status := "Inactive" |}
   ∧ ∀ registration : string, ∃ st, getDroneStatus (PStr registration) = Ok st)
  ∧ (getStatusColor (PStr (x ++ "-B" ++ tl)) = Ok "bg-[#5CFC00]"
     ∧ getStatusColor (PStr (x ++ "-A" ++ tl)) = Ok "bg-[#F9000E]"
     ∧ getStatusColor (PStr s) = Ok "bg-[#F9000E]"
     ∧ ∀ registration : string, ∃ c, getStatusColor (PStr registration) = Ok c).
Proof.
  intros Hx Hs. unfold getDroneStatus, getStatusColor.
  change (x ++ "-B" ++ tl)%string with (x ++ String "-" (String "B" tl))%string.
  change (x ++ "-A" ++ tl)%string with (x ++ String "-" (String "A" tl))%string.
  rewrite !secondSegment_marked, secondSegment_missing by done.
  repeat split; intros registration;
    destruct (secondSegment_string registration "B") as [v ->]; by eauto.
Qed.

Lemma getDroneStatus_classifies_witness :
  getDroneStatus (PStr "R1-B1")
  = Ok {| isFlyable := Some true; color := COLOR_ACTIVE; status := "Active" |}
  ∧ getDroneStatus (PStr "R1-A1")
    = Ok {| isFlyable := Some false; color := COLOR_INACTIVE;
            status := "Inactive" |}
  ∧ getDroneStatus (PStr "R7")
    = Ok {| isFlyable := None; color := COLOR_INACTIVE; status := "Inactive" |}.
Proof.
  destruct (getDroneStatus_classifies "R1" "1" "R7")
    as [(HB & HA & Hnone & _) _]; [reflexivity | reflexivity |].
  exact (conj HB (conj HA Hnone)).
Defined.

(** The list view agrees with the map: [getStatusColor] is green exactly
    when [getDroneStatus] says active. *)
Lemma getStatusColor_getDroneStatus (registration : prim) :
  getStatusColor registration
  = (λ st, if classifiedActive st then "bg-[#5CFC00]" else "bg-[#F9000E]")
      <$> getDroneStatus registration.
Proof.
  unfold getStatusColor, getDroneStatus.
  destruct (secondSegmentStartsWith registration "B") as [[[]|]|]; done.
Qed.

(** C2. [isDroneActive], which the statistics use, is not the classifier
    of the map: on every registration it returns the opposite of what
    [getDroneStatus] classifies, for instance inactive on ["R1-B1"], which
    the map shows as active. *)
Theorem isDroneActive_opposes_getDroneStatus :
  (isDroneActive (PStr "R1-B1") = Ok false
   ∧ classifiedActive <$> getDroneStatus (PStr "R1-B1") = Ok true)
  ∧ ∀ registration : prim,
      isDroneActive registration
      = (λ st, negb (classifiedActive st)) <$> getDroneStatus registration.
Proof.
  split; [by split|]. intros registration.
  unfold isDroneActive, getDroneStatus, ACTIVE_PREFIX.
  destruct (secondSegmentStartsWith registration "B") as [[[]|]|]; done.
Qed.

(** ** Statistics *)

(** On a registration string [isDroneActive] returns a boolean. *)
Lemma isDroneActive_string (registration : prim) :
  is_string registration = true → ∃ b, isDroneActive registration = Ok b.
Proof.
  destruct registration as [| |s]; try done. intros _.
  unfold isDroneActive.
  destruct (secondSegment_string s ACTIVE_PREFIX) as [v ->]. by eauto.
Qed.

(** Filtering by a predicate and by its negation splits an array in two:
    when the predicate never throws, both filters return and their lengths
    add up to the length of the array. *)
Lemma filterM_partition {A} (p : A → result bool) (l : list A) :
  Forall (λ x, ∃ b, p x = Ok b) l →
  ∃ yes no,
    filterM p l = Ok yes
    ∧ filterM (λ x, negb <$> p x) l = Ok no
    ∧ length yes + length no = length l.
Proof.
  induction 1 as [|x l [b Hb] _ (yes & no & Hyes & Hno & Hlen)].
  - by exists [], [].
  - cbn [filterM]. rewrite Hb, Hyes, Hno. cbn.
    destruct b; cbn; eexists _, _; (split; [done|split; [done|]]); cbn; lia.
Qed.

(** C10. For every array of records that each carry a registration
    string, [calculateDroneStats] returns counts with
    [active + inactive = total] and [total] the number of records. *)
Theorem calculateDroneStats_partition (droneData : list DroneRecord) :
  Forall (λ drone, is_string (registration_of drone) = true) droneData →
  ∃ st,
    calculateDroneStats droneData = Ok st
    ∧ active st + inactive st = total st
    ∧ total st = length droneData.
Proof.
  intros Hstr. unfold calculateDroneStats.
  destruct (filterM_partition
              (λ drone, isDroneActive (registration_of drone)) droneData)
    as (yes & no & -> & -> & Hlen).
  { eapply Forall_impl; [done|]. intros drone. apply isDroneActive_string. }
  cbn. by eexists.
Qed.

Lemma calculateDroneStats_partition_witness :
  ∃ st,
    calculateDroneStats
      [record {[ "registration" := PStr "R1-B1" ]} (10, 20)%float;
       record {[ "registration" := PStr "R2-A1" ]} (11, 21)%float;
       record {[ "registration" := PStr "R3" ]} (12, 22)%float] = Ok st
    ∧ active st + inactive st = total st
    ∧ total st = 3.
Proof.
  apply (calculateDroneStats_partition
           [record {[ "registration" := PStr "R1-B1" ]} (10, 20)%float;
            record {[ "registration" := PStr "R2-A1" ]} (11, 21)%float;
            record {[ "registration" := PStr "R3" ]} (12, 22)%float]).
  repeat constructor.
Defined.

(** C9. For two records with the registrations ["R1-B1"] and ["R2-A1"],
    [calculateDroneStats] returns [{active: 1, inactive: 1, total: 2}]. *)
Theorem calculateDroneStats_two (d1 d2 : DroneRecord) :
  registration_of d1 = PStr "R1-B1" →
  registration_of d2 = PStr "R2-A1" →
  calculateDroneStats [d1; d2] = Ok {| active := 1; inactive := 1; total := 2 |}.
Proof.
  intros H1 H2. unfold calculateDroneStats. cbn [filterM].
  by rewrite H1, H2.
Qed.

Lemma calculateDroneStats_two_witness :
  calculateDroneStats
    [record {[ "registration" := PStr "R1-B1" ]} (10, 20)%float;
     record {[ "registration" := PStr "R2-A1" ]} (11, 21)%float]
  = Ok {| active := 1; inactive := 1; total := 2 |}.
Proof.
  apply calculateDroneStats_two; reflexivity.
Defined.

(** ** Merging one update *)

Section FindIndex.

Context {A : Type} (p : A → bool).

(** The index found is in range and holds an element the predicate
    accepts. *)
Lemma findIndex_Some (l : list A) (i : nat) :
  findIndex p l = Some i → ∃ x, l !! i = Some x ∧ p x = true.
Proof.
  revert i. induction l as [|x l IH]; intros i; cbn; [done|].
  destruct (p x) eqn:Hx.
  - intros [= <-]. by exists x.
  - destruct (findIndex p l) as [j|]; cbn; [|done].
    intros [= <-]. by apply IH.
Qed.

(** [-1] means that the predicate rejects every element. *)
Lemma findIndex_None (l : list A) :
  findIndex p l = None → Forall (λ x, p x = false) l.
Proof.
  induction l as [|x l IH]; cbn; [by constructor|].
  destruct (p x) eqn:Hx; [done|].
  destruct (findIndex p l); cbn; [done|]. intros _. by constructor; auto.
Qed.

End FindIndex.

Section MergeFeature.

Variables (updated : list DroneRecord) (newDrone : Feature).
Variables (props : obj) (geom : Geometry).
Hypothesis Hprops : f_properties newDrone = Some props.
Hypothesis Hgeom : f_geometry newDrone = Some geom.

Let existingIndex : option nat :=
  findIndex (λ drone, strict_eq (registration_of drone)
                                (get props "registration")) updated.

(** The update branch: the record at the index found is rebuilt. *)
Lemma mergeFeature_existing (i : nat) (existing : DroneRecord) :
  existingIndex = Some i →
  updated !! i = Some existing →
  mergeFeature updated newDrone
  = Ok (<[i := {| rest := rest existing;
                  positions := positions existing ++ [coordinates geom];
                  geometry := geom;
                  properties := spread2 (properties existing) props |}]>
          updated).
Proof using Hprops Hgeom.
  subst existingIndex. intros Hi Hex. unfold mergeFeature.
  rewrite Hprops. cbn. rewrite Hi, Hex, Hgeom. done.
Qed.

(** The creation branch: a record is pushed. *)
Lemma mergeFeature_new :
  existingIndex = None →
  mergeFeature updated newDrone
  = Ok (updated ++ [ {| rest := f_rest newDrone;
                        geometry := geom;
                        properties := props;
                        positions := [coordinates geom] |} ]).
Proof using Hprops Hgeom.
  subst existingIndex. intros Hi. unfold mergeFeature.
  rewrite Hprops. cbn. rewrite Hi, Hgeom. done.
Qed.

End MergeFeature.

(** An update that lacks its [geometry] or [properties] object makes the
    callback throw. *)
Lemma mergeFeature_throws (updated : list DroneRecord) (u : Feature) :
  has_objects u = false → mergeFeature updated u = TypeError.
Proof.
  unfold has_objects, mergeFeature. intros Hu.
  destruct (f_properties u) as [props|]; cbn; [|done].
  destruct (f_geometry u) as [geom|]; cbn; [done|].
  destruct (findIndex _ updated) as [i|]; [|done].
  by destruct (updated !! i).
Qed.

(** C1, as the code has it.  For every store and every incoming update
    whose registration already has a record (the one [findIndex] finds),
    merging appends the update's position to that record's history (the
    earlier entries unchanged, in order) and sets the current position to
    it; the attributes are merged key by key: a key of the update takes the
    update's value, and a key absent from the update keeps the value the
    record had. *)
Theorem merge_existing_record (updated : list DroneRecord) (newDrone : Feature)
    (props : obj) (geom : Geometry) (i : nat) (existing : DroneRecord) :
  f_properties newDrone = Some props →
  f_geometry newDrone = Some geom →
  findIndex (λ drone, strict_eq (registration_of drone)
                                (get props "registration")) updated = Some i →
  updated !! i = Some existing →
  ∃ merged,
    mergeDroneData updated [newDrone] = Ok (<[i := merged]> updated)
    ∧ positions merged = positions existing ++ [coordinates geom]
    ∧ currentPosition merged = coordinates geom
    ∧ ∀ k, properties merged !! k
           = match props !! k with
             | Some v => Some v
             | None => properties existing !! k
             end.
Proof.
  intros Hprops Hgeom Hi Hex. eexists. split.
  - unfold mergeDroneData. cbn [forEachM].
    rewrite (mergeFeature_existing _ _ _ _ Hprops Hgeom i existing Hi Hex).
    reflexivity.
  - cbn. split; [done|]. split; [done|]. intros k.
    unfold spread2. rewrite lookup_union.
    by destruct (props !! k), (properties existing !! k).
Qed.

Lemma merge_existing_record_witness :
  ∃ merged,
    mergeDroneData [stored_R1] [update_R1] = Ok (<[0 := merged]> [stored_R1])
    ∧ positions merged = positions stored_R1 ++ [Some (11, 21)%float]
    ∧ currentPosition merged = Some (11, 21)%float
    ∧ ∀ k, properties merged !! k
           = match update_R1_properties !! k with
             | Some v => Some v
             | None => properties stored_R1 !! k
             end.
Proof.
  apply (merge_existing_record [stored_R1] update_R1 update_R1_properties
           (point_geometry (Some (11, 21)%float)) 0 stored_R1);
    vm_compute; reflexivity.
Defined.

(** C1 as stated fails on the attributes.  Merging the second update of
    R1, which names no pilot, into the record of R1 appends (11, 21) to the
    history and makes it the current position, but the record keeps its
    pilot: the attributes are not replaced by those of the update. *)
Lemma merge_existing_keeps_absent_fields :
  ∃ merged,
    mergeDroneData [stored_R1] [update_R1] = Ok [merged]
    ∧ positions merged = [Some (10, 20)%float; Some (11, 21)%float]
    ∧ currentPosition merged = Some (11, 21)%float
    ∧ f_properties update_R1 = Some update_R1_properties
    ∧ update_R1_properties !! "pilot" = None
    ∧ properties merged !! "pilot" = Some (PStr "Besher")
    ∧ properties merged ≠ update_R1_properties.
Proof.
  eexists. split; [vm_compute; reflexivity|].
  repeat split; try (vm_compute; reflexivity).
  intros Heq. apply (f_equal (λ m : obj, m !! "pilot")) in Heq.
  vm_compute in Heq. discriminate Heq.
Qed.

(** ** The history invariant *)

(** One merged update keeps the invariant of every record, and gives it
    to the record it creates. *)
Lemma mergeFeature_history (updated : list DroneRecord) (u : Feature)
    (s' : list DroneRecord) :
  Forall history_ok updated →
  mergeFeature updated u = Ok s' →
  Forall history_ok s'.
Proof.
  intros Hinv. destruct (has_objects u) eqn:Hu.
  2:{ by rewrite (mergeFeature_throws _ _ Hu). }
  unfold has_objects in Hu.
  apply andb_prop in Hu as
    [[geom Hgeom]%bool_decide_eq_true [props Hprops]%bool_decide_eq_true].
  destruct (findIndex (λ drone, strict_eq (registration_of drone)
                                  (get props "registration")) updated)
    as [i|] eqn:Hi.
  - destruct (findIndex_Some _ _ _ Hi) as (existing & Hex & _).
    rewrite (mergeFeature_existing _ _ _ _ Hprops Hgeom i existing Hi Hex).
    intros [= <-]. apply Forall_insert; [done|].
    split; cbn; [by destruct (positions existing)|apply last_snoc].
  - rewrite (mergeFeature_new _ _ _ _ Hprops Hgeom Hi).
    intros [= <-]. apply Forall_app. split; [done|].
    by repeat constructor.
Qed.

Lemma mergeDroneData_history (features : list Feature)
    (s s' : list DroneRecord) :
  Forall history_ok s →
  mergeDroneData s features = Ok s' →
  Forall history_ok s'.
Proof.
  unfold mergeDroneData. revert s.
  induction features as [|u features IH]; intros s Hinv; cbn.
  - by intros [= <-].
  - destruct (mergeFeature s u) as [s1|] eqn:Hstep; cbn; [|done].
    apply IH. by eapply mergeFeature_history.
Qed.

(** C7. In every store reached by merges from the empty store, every
    record has a non-empty position history whose last element is the
    record's current position.  The invariant is established when a merge
    creates a record (a one-element history holding the current position)
    and every merge preserves it. *)
Theorem store_history_invariant :
  (∀ s, reachable s → Forall history_ok s)
  ∧ (∀ updated u props geom,
       f_properties u = Some props →
       f_geometry u = Some geom →
       findIndex (λ drone, strict_eq (registration_of drone)
                             (get props "registration")) updated = None →
       ∃ created,
         mergeDroneData updated [u] = Ok (updated ++ [created])
         ∧ positions created = [currentPosition created]
         ∧ currentPosition created = coordinates geom)
  ∧ (∀ s features s',
       Forall history_ok s →
       mergeDroneData s features = Ok s' →
       Forall history_ok s').
Proof.
  split; [|split].
  - induction 1 as [|s features s' _ IH Hmerge]; [by constructor|].
    by eapply mergeDroneData_history.
  - intros updated u props geom Hprops Hgeom Hi. eexists. split.
    + unfold mergeDroneData. cbn [forEachM].
      rewrite (mergeFeature_new _ _ _ _ Hprops Hgeom Hi). reflexivity.
    + done.
  - intros s features s'. apply mergeDroneData_history.
Qed.

Lemma store_history_invariant_witness :
  Forall history_ok
    [record {[ "registration" := PStr "R1"; "Name" := PStr "Dji Mavic" ]}
            (10, 20)%float].
Proof.
  apply (proj1 store_history_invariant).
  apply (reachable_merge [] [feature "R1" "Dji Mavic" (10, 20)%float]);
    [apply reachable_init | vm_compute; reflexivity].
Defined.

(** ** Updates that are not well formed *)

(** [===] with a value that is not a number is equality. *)
Lemma strict_eq_eq (a b : prim) :
  is_number a = false → strict_eq a b = true → a = b.
Proof.
  destruct a as [| |s], b as [| |t]; cbn; try done.
  intros _ Heq. f_equal. by apply String.eqb_eq.
Qed.

Lemma strict_eq_undefined (a : prim) : strict_eq a PUndef = true → a = PUndef.
Proof. by destruct a. Qed.

(** The registration of a rebuilt record is the registration of the
    update that rebuilt it. *)
Lemma merged_registration_update (existing props : obj) :
  strict_eq (get existing "registration") (get props "registration") = true →
  get (spread2 existing props) "registration" = get props "registration".
Proof.
  unfold get, spread2. rewrite lookup_union.
  destruct (props !! "registration") as [w|] eqn:Hw; cbn.
  - by destruct (existing !! "registration").
  - intros Heq%strict_eq_undefined.
    destruct (existing !! "registration"); cbn in *; done.
Qed.

Section Rebuild.

Variables (updated : list DroneRecord) (i : nat) (existing merged : DroneRecord).
Hypothesis Hex : updated !! i = Some existing.

(** Rebuilding one record with one more position adds one position to
    the store. *)
Lemma total_positions_insert :
  length (positions merged) = S (length (positions existing)) →
  total_positions (<[i := merged]> updated) = S (total_positions updated).
Proof using Hex.
  intros Hlen. unfold total_positions.
  rewrite insert_take_drop by (by eapply lookup_lt_Some).
  rewrite <- (take_drop_middle updated i existing Hex) at 3.
  rewrite !sum_list_with_app. cbn. lia.
Qed.

(** What was recorded stays recorded when the rebuilt record keeps its
    registration and its earlier positions. *)
Lemma recorded_insert (v : prim) (c : position) :
  (registration_of existing = v → registration_of merged = v) →
  (∀ c', c' ∈ positions existing → c' ∈ positions merged) →
  recorded updated v c →
  recorded (<[i := merged]> updated) v c.
Proof using Hex.
  intros Hreg Hpos (drone & [j Hj]%list_elem_of_lookup & Hv & Hc).
  destruct (decide (i = j)) as [->|Hne].
  - assert (drone = existing) as -> by congruence.
    exists merged. split; [|by auto].
    apply list_elem_of_insert. by eapply lookup_lt_Some.
  - exists drone. split; [|done].
    apply list_elem_of_lookup. exists j. by rewrite list_lookup_insert_ne.
Qed.

End Rebuild.

(** One update that has its two objects is applied, whatever else it
    lacks: the store gains one position, the update is recorded under its
    registration, and what was recorded under a registration that is not a
    number stays recorded. *)
Lemma mergeFeature_applies (updated : list DroneRecord) (u : Feature) :
  has_objects u = true →
  ∃ s',
    mergeFeature updated u = Ok s'
    ∧ total_positions s' = S (total_positions updated)
    ∧ recorded s' (update_registration u) (update_position u)
    ∧ ∀ v c, is_number v = false → recorded updated v c → recorded s' v c.
Proof.
  unfold has_objects, update_registration, update_position.
  intros [[geom Hgeom]%bool_decide_eq_true [props Hprops]%bool_decide_eq_true]
    %andb_prop.
  rewrite Hgeom, Hprops. cbn.
  destruct (findIndex (λ drone, strict_eq (registration_of drone)
                                  (get props "registration")) updated)
    as [i|] eqn:Hi.
  - destruct (findIndex_Some _ _ _ Hi) as (existing & Hex & Hmatch).
    rewrite (mergeFeature_existing _ _ _ _ Hprops Hgeom i existing Hi Hex).
    eexists. split; [done|]. split; [|split].
    + apply (total_positions_insert _ _ existing); [done|].
      cbn. rewrite length_app. cbn. lia.
    + eexists. split; [apply list_elem_of_insert; by eapply lookup_lt_Some|].
      split; [by apply merged_registration_update|].
      cbn. apply elem_of_app. right. by apply list_elem_of_singleton.
    + intros v c Hv. apply (recorded_insert _ _ existing); [done| |].
      * intros <-. unfold registration_of at 1. cbn.
        rewrite (merged_registration_update _ _ Hmatch).
        symmetry. by apply strict_eq_eq.
      * intros c' Hc'. cbn. apply elem_of_app. by left.
  - rewrite (mergeFeature_new _ _ _ _ Hprops Hgeom Hi).
    eexists. split; [done|]. split; [|split].
    + unfold total_positions. rewrite sum_list_with_app. cbn. lia.
    + eexists. split; [apply elem_of_app; right; by apply list_elem_of_singleton|].
      split; [done|]. cbn. by apply list_elem_of_singleton.
    + intros v c _ (drone & Hin & Hv & Hc). exists drone.
      split; [apply elem_of_app; by left|done].
Qed.

(** A batch of updates that all have their two objects is applied in
    full. *)
Lemma mergeDroneData_applies (features : list Feature)
    (previousData : list DroneRecord) :
  Forall (λ u, has_objects u = true) features →
  ∃ s',
    mergeDroneData previousData features = Ok s'
    ∧ total_positions s' = total_positions previousData + length features
    ∧ (∀ v c, is_number v = false →
              recorded previousData v c → recorded s' v c)
    ∧ ∀ u, u ∈ features →
           is_number (update_registration u) = false →
           recorded s' (update_registration u) (update_position u).
Proof.
  unfold mergeDroneData. intros Hall. revert previousData.
  induction Hall as [|u features Hu _ IH]; intros previousData; cbn.
  - exists previousData. split; [done|]. split; [lia|].
    split; [done|]. intros u Hin. by apply elem_of_nil in Hin.
  - destruct (mergeFeature_applies previousData u Hu)
      as (s1 & -> & Htotal1 & Hrec1 & Hkeep1). cbn.
    destruct (IH s1) as (s' & -> & Htotal & Hkeep & Hrec).
    exists s'. split; [done|]. split; [lia|].
    split; [by auto|].
    intros u' [->|Hin]%elem_of_cons Hnum; by auto.
Qed.

(** A batch with an update that lacks its [geometry] or [properties]
    object makes the merge throw. *)
Lemma mergeDroneData_throws (features : list Feature)
    (previousData : list DroneRecord) :
  Exists (λ u, has_objects u = false) features →
  mergeDroneData previousData features = TypeError.
Proof.
  unfold mergeDroneData. intros Hex. revert previousData.
  induction Hex as [u features Hu|u features _ IH]; intros previousData; cbn.
  - by rewrite (mergeFeature_throws _ _ Hu).
  - destruct (mergeFeature previousData u) as [s1|]; cbn; [apply IH|done].
Qed.

(** C4, as the code has it.  [mergeDroneData] validates nothing.  When
    every update of the batch has its [geometry] and [properties] objects,
    the merge raises no exception and applies every update, a malformed one
    too: each update adds one position to the store, and an update whose
    registration is a string or is missing is recorded, with its position
    (which is [undefined] when its coordinates are missing), in a record of
    that registration.  When some update of the batch lacks one of the two
    objects, the merge raises a [TypeError]. *)
Theorem merge_validates_nothing (previousData : list DroneRecord)
    (features : list Feature) :
  (Forall (λ u, has_objects u = true) features →
   ∃ s',
     mergeDroneData previousData features = Ok s'
     ∧ total_positions s' = total_positions previousData + length features
     ∧ ∀ u, u ∈ features →
            is_number (update_registration u) = false →
            recorded s' (update_registration u) (update_position u))
  ∧ (Exists (λ u, has_objects u = false) features →
     mergeDroneData previousData features = TypeError).
Proof.
  split.
  - intros Hall.
    destruct (mergeDroneData_applies features previousData Hall)
      as (s' & Hmerge & Htotal & _ & Hrec).
    by exists s'.
  - apply mergeDroneData_throws.
Qed.

Lemma merge_validates_nothing_witness :
  (∃ s',
     mergeDroneData [stored_R1] [feature_without_registration; update_R1]
     = Ok s'
     ∧ total_positions s' = total_positions [stored_R1] + 2
     ∧ ∀ u, u ∈ [feature_without_registration; update_R1] →
            is_number (update_registration u) = false →
            recorded s' (update_registration u) (update_position u))
  ∧ mergeDroneData [stored_R1] [update_R1; feature_without_geometry]
    = TypeError.
Proof.
  split.
  - apply (proj1 (merge_validates_nothing [stored_R1]
                    [feature_without_registration; update_R1])).
    by repeat constructor.
  - apply (proj2 (merge_validates_nothing [stored_R1]
                    [update_R1; feature_without_geometry])).
    apply Exists_cons_tl, Exists_cons_hd. reflexivity.
Defined.

(** C4 as stated fails twice.  A batch whose second update has no
    [geometry] makes the merge throw, so that the well-formed first update
    is not applied either; and an update that names no registration is not
    discarded: it becomes a record of the store, under the registration
    [undefined]. *)
Lemma merge_malformed_not_discarded :
  mergeDroneData [stored_R1] [update_R1; feature_without_geometry] = TypeError
  ∧ has_objects update_R1 = true
  ∧ update_registration feature_without_registration = PUndef
  ∧ ∃ created,
      mergeDroneData [stored_R1] [feature_without_registration]
      = Ok [stored_R1; created]
      ∧ registration_of created = PUndef
      ∧ positions created = [Some (1, 2)%float].
Proof.
  split; [vm_compute; reflexivity|].
  split; [vm_compute; reflexivity|].
  split; [vm_compute; reflexivity|].
  eexists. split; [vm_compute; reflexivity|].
  split; vm_compute; reflexivity.
Qed.

(** ** Binary64 arithmetic used by the curve smoother *)

Section Binary64.

(** Multiplying a mantissa by [2^52] adds 52 binary digits. *)
Lemma digits2_shift52 (m : positive) :
  digits2_pos (4503599627370496 * m) = (digits2_pos m + 52)%positive.
Proof.
  change (4503599627370496 * m)%positive with
    (m~0~0~0~0~0~0~0~0~0~0~0~0~0~0~0~0~0~0~0~0~0~0~0~0~0~0
      ~0~0~0~0~0~0~0~0~0~0~0~0~0~0~0~0~0~0~0~0~0~0~0~0~0~0)%positive.
  cbn [digits2_pos]. lia.
Qed.

(** The product of [1] and a binary64 number is that number: the
    rounding of the exact product is exact. *)
Lemma SF64mul_one_l (sg : bool) (m : positive) (e : Z) :
  valid_binary (S754_finite sg m e) = true →
  SF64mul (S754_finite false 4503599627370496 (-52)) (S754_finite sg m e)
  = S754_finite sg m e.
Proof.
  unfold SpecFloat.valid_binary, bounded, canonical_mantissa.
  intros [Hcanon Hbound]%andb_prop. apply Z.eqb_eq in Hcanon.
  unfold SF64mul, SFmul, binary_round_aux. cbn [xorb].
  unfold shr_fexp at 1. unfold Zdigits2 at 1.
  rewrite digits2_shift52.
  replace (fexp prec emax (Z.pos (digits2_pos m + 52) + (-52 + e)) - (-52 + e))%Z
    with 52%Z.
  2:{ replace (Z.pos (digits2_pos m + 52) + (-52 + e))%Z
        with (Z.pos (digits2_pos m) + e)%Z by lia.
      rewrite Hcanon. lia. }
  change (4503599627370496 * m)%positive with
    (m~0~0~0~0~0~0~0~0~0~0~0~0~0~0~0~0~0~0~0~0~0~0~0~0~0~0
      ~0~0~0~0~0~0~0~0~0~0~0~0~0~0~0~0~0~0~0~0~0~0~0~0~0~0)%positive.
  cbn [shr shr_record_of_loc SpecFloat.iter_pos shr_1 shr_m shr_r shr_s orb
       loc_of_shr_record round_nearest_even].
  unfold shr_fexp, Zdigits2.
  replace (-52 + e + 52)%Z with e by lia.
  rewrite Hcanon, Z.sub_diag. cbn [shr shr_record_of_loc shr_m].
  by rewrite Hbound.
Qed.

(** A finite number is a zero or a signed mantissa with an exponent. *)
Lemma is_finite_spec (x : float) :
  is_finite x = true →
  match Prim2SF x with
  | S754_zero _ | S754_finite _ _ _ => True
  | _ => False
  end.
Proof.
  unfold is_finite, is_nan, is_infinity.
  rewrite !FloatAxioms.eqb_spec, abs_spec.
  destruct (Prim2SF x) as [sg|sg| |sg m e]; try done.
  by destruct sg.
Qed.

Lemma SFeqb_finite_refl (sg : bool) (m : positive) (e : Z) :
  SFeqb (S754_finite sg m e) (S754_finite sg m e) = true.
Proof.
  unfold SFeqb, SFcompare. rewrite Z.compare_refl, Pos.compare_cont_refl.
  by destruct sg.
Qed.

(** [1 * x] is [x]. *)
Lemma float_mul_one_l (x : float) : is_finite x = true → (1 * x)%float = x.
Proof.
  intros Hx%is_finite_spec. apply Prim2SF_inj. rewrite mul_spec.
  pose proof (Prim2SF_valid x) as Hvalid.
  change (Prim2SF 1) with (S754_finite false 4503599627370496 (-52)).
  destruct (Prim2SF x) as [sg|sg| |sg m e]; try done.
  by apply SF64mul_one_l.
Qed.

(** [0 * x] is a zero. *)
Lemma float_mul_zero_l (x : float) :
  is_finite x = true → ∃ sg, Prim2SF (0 * x) = S754_zero sg.
Proof.
  intros Hx%is_finite_spec. rewrite mul_spec.
  change (Prim2SF 0) with (S754_zero false).
  destruct (Prim2SF x) as [sg|sg| |sg m e]; try done; cbn; by eauto.
Qed.

(** The weights of the curve at its two ends: what the sum
    [w0 * s + w1 * c + w2 * e] evaluates to when one weight is [1] and the
    others are [0], all three numbers being finite. *)
Lemma weighted_sum_end (s c e : float) :
  is_finite s = true → is_finite c = true → is_finite e = true →
  (0 * s + 0 * c + 1 * e =? e)%float = true.
Proof.
  intros [zs Hs]%float_mul_zero_l [zc Hc]%float_mul_zero_l He.
  rewrite (float_mul_one_l e He).
  rewrite FloatAxioms.eqb_spec, !add_spec, Hs, Hc.
  apply is_finite_spec in He.
  destruct (Prim2SF e) as [sg|sg| |sg m ex]; try done.
  - by destruct zs, zc, sg.
  - destruct zs, zc; cbn; apply SFeqb_finite_refl.
Qed.

Lemma weighted_sum_start (s c e : float) :
  is_finite s = true → is_finite c = true → is_finite e = true →
  (s =? 1 * s + 0 * c + 0 * e)%float = true.
Proof.
  intros Hs [zc Hc]%float_mul_zero_l [ze He]%float_mul_zero_l.
  rewrite (float_mul_one_l s Hs).
  rewrite FloatAxioms.eqb_spec, !add_spec, Hc, He.
  apply is_finite_spec in Hs.
  destruct (Prim2SF s) as [sg|sg| |sg m ex]; try done.
  - by destruct zc, ze, sg.
  - cbn. apply SFeqb_finite_refl.
Qed.

End Binary64.

(** ** The curve smoother *)

(** At [t = CURVE_STEPS] the weights are 0, 0 and 1, and at [t = 0] they
    are 1, 0 and 0. *)
Lemma bezier_end (start control end_ : point) :
  bezier start control end_ CURVE_STEPS
  = ((0 * lng start + 0 * lng control + 1 * lng end_)%float,
     (0 * lat start + 0 * lat control + 1 * lat end_)%float).
Proof. reflexivity. Qed.

Lemma bezier_start (start control end_ : point) :
  bezier start control end_ 0
  = ((1 * lng start + 0 * lng control + 0 * lng end_)%float,
     (1 * lat start + 0 * lat control + 0 * lat end_)%float).
Proof. reflexivity. Qed.

(** The points pushed for one segment: the sample at [t = 0] for the
    first segment only, then the samples at [t = 1 .. CURVE_STEPS]. *)
Lemma segment_samples (i : nat) (start end_ : point) :
  segment i start end_
  = (if i =? 0 then [bezier start (controlPoint start end_) end_ 0] else [])
    ++ (bezier start (controlPoint start end_) end_ <$> seq 1 CURVE_STEPS).
Proof. reflexivity. Qed.

Lemma segment_last (i : nat) (start end_ : point) :
  last (segment i start end_)
  = Some (bezier start (controlPoint start end_) end_ CURVE_STEPS).
Proof. rewrite segment_samples. by destruct (i =? 0). Qed.

Lemma segment_length (i : nat) (start end_ : point) :
  length (segment i start end_) = (if i =? 0 then 1 else 0) + CURVE_STEPS.
Proof. rewrite segment_samples. by destruct (i =? 0). Qed.

(** The last iteration of the outer loop handles the last two points. *)
Lemma segments_snoc (pre : list point) (i : nat) (start end_ : point) :
  segments i (pre ++ [start; end_])
  = segments i (pre ++ [start]) ++ segment (i + length pre) start end_.
Proof.
  revert i. induction pre as [|a pre IH]; intros i.
  - cbn [app segments length]. by rewrite Nat.add_0_r, app_nil_r.
  - destruct pre as [|b pre].
    + cbn [app segments length]. by rewrite !app_nil_r, Nat.add_1_r.
    + change (segments i ((a :: b :: pre) ++ [start; end_]))
        with (segment i a b ++ segments (S i) ((b :: pre) ++ [start; end_])).
      change (segments i ((a :: b :: pre) ++ [start]))
        with (segment i a b ++ segments (S i) ((b :: pre) ++ [start])).
      rewrite IH, <- app_assoc. do 3 f_equal. cbn. lia.
Qed.

(** The output starts with the first input point and ends with the last
    sample of the last segment. *)
Lemma createCurvedPath_shape (pre : list point) (start end_ : point) :
  ∃ first body,
    head (pre ++ [start; end_]) = Some first
    ∧ createCurvedPath (pre ++ [start; end_])
      = first :: body
          ++ [bezier start (controlPoint start end_) end_ CURVE_STEPS].
Proof.
  assert (∃ first tl, pre ++ [start; end_] = first :: tl
                      ∧ createCurvedPath (pre ++ [start; end_])
                        = first :: segments 0 (pre ++ [start; end_]))
    as (first & tl & Hcoords & ->).
  { destruct pre as [|a [|b pre]]; cbn; by eauto. }
  rewrite segments_snoc.
  destruct (last_Some (segment (0 + length pre) start end_)
              (bezier start (controlPoint start end_) end_ CURVE_STEPS))
    as [[body' ->] _]; [apply segment_last|].
  exists first, (segments 0 (pre ++ [start]) ++ body').
  split; [by rewrite Hcoords|]. by rewrite <- app_assoc.
Qed.

(** A shared endpoint is pushed once: every segment but the first
    contributes [CURVE_STEPS] points, and the output has
    [2 + CURVE_STEPS * (n - 1)] points for [n ≥ 2] input points, the two
    leading ones being the first input point and the sample at [t = 0] of
    the first segment. *)
Lemma segments_length (coordinates : list point) (i : nat) :
  length (segments (S i) coordinates) = CURVE_STEPS * (length coordinates - 1).
Proof.
  revert i. induction coordinates as [|a l IH]; [done|].
  destruct l as [|b l]; [done|]. intros i.
  change (segments (S i) (a :: b :: l))
    with (segment (S i) a b ++ segments (S (S i)) (b :: l)).
  rewrite length_app, segment_length, IH. unfold CURVE_STEPS. cbn. lia.
Qed.

Lemma createCurvedPath_length (a b : point) (l : list point) :
  length (createCurvedPath (a :: b :: l))
  = 2 + CURVE_STEPS * length (b :: l).
Proof.
  change (createCurvedPath (a :: b :: l))
    with (a :: segment 0 a b ++ segments 1 (b :: l)).
  cbn [length]. rewrite length_app, segment_length, segments_length.
  unfold CURVE_STEPS. cbn. lia.
Qed.

(** When the first segment and its control point are finite, the second
    point of the output has the same numbers as the first: the first input
    point is pushed twice. *)
Lemma createCurvedPath_first_twice (first second : point) (l : list point) :
  finite_point first = true →
  finite_point second = true →
  finite_point (controlPoint first second) = true →
  ∃ p tl,
    createCurvedPath (first :: second :: l) = first :: p :: tl
    ∧ same_numbers first p = true.
Proof.
  unfold finite_point.
  intros [Hs0 Hs1]%andb_prop [He0 He1]%andb_prop [Hc0 Hc1]%andb_prop.
  change (createCurvedPath (first :: second :: l))
    with (first :: segment 0 first second ++ segments 1 (second :: l)).
  rewrite segment_samples. cbn [Nat.eqb app]. eexists _, _. split; [done|].
  rewrite bezier_start. unfold same_numbers. cbn [lng lat fst snd].
  apply andb_true_intro. split; by apply weighted_sum_start.
Qed.

(** C5, as the code has it.  For every coordinate sequence of length at
    least 2 the output of [createCurvedPath] is not empty and its first
    element is the first input point; its last element has the numbers of
    the last input point whenever the last two input points and the control
    point computed for them are finite. *)
Theorem createCurvedPath_endpoints (pre : list point) (start end_ : point) :
  let coordinates := pre ++ [start; end_] in
  createCurvedPath coordinates ≠ []
  ∧ head (createCurvedPath coordinates) = head coordinates
  ∧ (finite_point start = true →
     finite_point end_ = true →
     finite_point (controlPoint start end_) = true →
     ∃ p, last (createCurvedPath coordinates) = Some p
          ∧ same_numbers p end_ = true).
Proof.
  intros coordinates. subst coordinates.
  destruct (createCurvedPath_shape pre start end_)
    as (first & body & Hhead & ->).
  split; [done|]. split; [by rewrite Hhead|].
  unfold finite_point.
  intros [Hs0 Hs1]%andb_prop [He0 He1]%andb_prop [Hc0 Hc1]%andb_prop.
  eexists. split.
  - rewrite app_comm_cons. apply last_snoc.
  - rewrite bezier_end. unfold same_numbers. cbn [lng lat fst snd].
    apply andb_true_intro. split; by apply weighted_sum_end.
Qed.

Lemma createCurvedPath_endpoints_witness :
  ∃ p,
    last (createCurvedPath
            [(35.5, 31.75); (35.75, 32); (36, 31.5)]%float) = Some p
    ∧ same_numbers p (36, 31.5)%float = true.
Proof.
  apply (proj2 (proj2 (createCurvedPath_endpoints
                         [(35.5, 31.75)%float] (35.75, 32)%float
                         (36, 31.5)%float)));
    vm_compute; reflexivity.
Defined.

(** C5 as stated fails for finite coordinates that are very large: the
    difference of [2^1023] and [-2^1023] overflows to an infinity, the
    control point is infinite, and the last point of the output has [NaN]
    for latitude instead of the latitude of the last input point. *)
Lemma createCurvedPath_overflow :
  let coordinates := [(0x1p1023, 0); (- 0x1p1023, 0)]%float in
  2 ≤ length coordinates
  ∧ Forall (λ p, finite_point p = true) coordinates
  ∧ ∃ p,
      last (createCurvedPath coordinates) = Some p
      ∧ is_nan (lat p) = true
      ∧ same_numbers p (- 0x1p1023, 0)%float = false.
Proof.
  cbn zeta. split; [cbn; lia|]. split.
  - repeat constructor.
  - eexists. split; [vm_compute; reflexivity|]. split; vm_compute; reflexivity.
Qed.

(** C8. The output of [createCurvedPath] has two adjacent equal points
    although the input points are distinct: for the two points
    (35.5, 31.75) and (35.75, 32) it starts with (35.5, 31.75) twice, the
    seed of the output and the sample at [t = 0] of the first segment;
    past the seed no two neighbours are equal. *)
Theorem createCurvedPath_adjacent_equal :
  let coordinates := [(35.5, 31.75); (35.75, 32)]%float in
  no_adjacent_equal coordinates = true
  ∧ length (createCurvedPath coordinates) = 22
  ∧ take 2 (createCurvedPath coordinates)
    = [(35.5, 31.75); (35.5, 31.75)]%float
  ∧ no_adjacent_equal (createCurvedPath coordinates) = false
  ∧ no_adjacent_equal (drop 1 (createCurvedPath coordinates)) = true.
Proof.
  cbn zeta. repeat split; vm_compute; reflexivity.
Qed.

(** * Further properties of the code *)

(** ** Merging, message after message *)

(** What a merged update does, read backwards from its result: the update
    had its two objects, and either the first record with its registration
    was rebuilt in place or a record was pushed. *)
Lemma mergeFeature_Ok_inv (updated : list DroneRecord) (u : Feature)
    (s' : list DroneRecord) :
  mergeFeature updated u = Ok s' →
  ∃ props geom,
    f_properties u = Some props ∧ f_geometry u = Some geom
    ∧ ((∃ i existing,
          updated !! i = Some existing
          ∧ strict_eq (registration_of existing) (get props "registration")
            = true
          ∧ s' = <[i := {| rest := rest existing;
                           positions := positions existing ++ [coordinates geom];
                           geometry := geom;
                           properties := spread2 (properties existing) props |}]>
                   updated)
       ∨ (Forall (λ drone, strict_eq (registration_of drone)
                             (get props "registration") = false) updated
          ∧ s' = updated ++ [ {| rest := f_rest u;
                                 geometry := geom;
                                 properties := props;
                                 positions := [coordinates geom] |} ])).
Proof.
  destruct (has_objects u) eqn:Hu.
  2:{ by rewrite (mergeFeature_throws _ _ Hu). }
  unfold has_objects in Hu.
  apply andb_prop in Hu as
    [[geom Hgeom]%bool_decide_eq_true [props Hprops]%bool_decide_eq_true].
  intros Hmerge. exists props, geom. split; [done|]. split; [done|].
  destruct (findIndex (λ drone, strict_eq (registration_of drone)
                                  (get props "registration")) updated)
    as [i|] eqn:Hi.
  - destruct (findIndex_Some _ _ _ Hi) as (existing & Hex & Hmatch).
    rewrite (mergeFeature_existing _ _ _ _ Hprops Hgeom i existing Hi Hex)
      in Hmerge.
    injection Hmerge as <-. left. by exists i, existing.
  - rewrite (mergeFeature_new _ _ _ _ Hprops Hgeom Hi) in Hmerge.
    injection Hmerge as <-. right. split; [|done].
    by apply findIndex_None.
Qed.

Lemma extends_refl (r : DroneRecord) : extends r r.
Proof. by repeat split. Qed.

Lemma extends_trans (r1 r2 r3 : DroneRecord) :
  extends r1 r2 → extends r2 r3 → extends r1 r3.
Proof.
  intros (Hp1 & Hr1 & Hk1) (Hp2 & Hr2 & Hk2). split; [|split].
  - by etrans.
  - congruence.
  - by auto.
Qed.

Lemma mergeFeature_extends (updated : list DroneRecord) (u : Feature)
    (s' : list DroneRecord) :
  mergeFeature updated u = Ok s' →
  length updated ≤ length s' ≤ S (length updated)
  ∧ ∀ i r, updated !! i = Some r → ∃ r', s' !! i = Some r' ∧ extends r r'.
Proof.
  intros (props & geom & _ & _ & [(i & existing & Hex & _ & ->)|[_ ->]])
    %mergeFeature_Ok_inv.
  - rewrite length_insert. split; [lia|]. intros j r Hj.
    destruct (decide (i = j)) as [->|Hne].
    + assert (r = existing) as -> by congruence.
      eexists. split.
      { apply list_lookup_insert_eq. by eapply lookup_lt_Some. }
      split; [by apply prefix_app_r|]. split; [done|]. cbn.
      intros k Hk. unfold spread2. rewrite lookup_union.
      destruct Hk as [v ->]. by destruct (props !! k).
    + exists r. split; [by rewrite list_lookup_insert_ne|apply extends_refl].
  - rewrite length_app. cbn. split; [lia|]. intros j r Hj.
    exists r. split; [by apply lookup_app_l_Some|apply extends_refl].
Qed.

(** X2. A merge that returns never deletes or moves a record and never
    shortens a history: every record of the store is at the same index
    afterwards, with its earlier history as the beginning of its history
    and with every attribute key it had; records are only added at the
    end, at most one for each update. *)
Theorem mergeDroneData_extends (features : list Feature)
    (s s' : list DroneRecord) :
  mergeDroneData s features = Ok s' →
  length s ≤ length s' ≤ length s + length features
  ∧ ∀ i r, s !! i = Some r → ∃ r', s' !! i = Some r' ∧ extends r r'.
Proof.
  unfold mergeDroneData. revert s.
  induction features as [|u features IH]; intros s; cbn.
  - intros [= <-]. split; [lia|]. intros i r Hi. exists r.
    split; [done|apply extends_refl].
  - destruct (mergeFeature s u) as [s1|] eqn:Hstep; cbn; [|done].
    intros Hrest. apply mergeFeature_extends in Hstep as [Hlen1 Hext1].
    apply IH in Hrest as [Hlen Hext]. split; [lia|].
    intros i r Hi. destruct (Hext1 i r Hi) as (r1 & Hi1 & Hr1).
    destruct (Hext i r1 Hi1) as (r' & Hi' & Hr').
    exists r'. split; [done|]. by eapply extends_trans.
Qed.

Lemma mergeDroneData_extends_witness :
  ∃ s',
    mergeDroneData [stored_R1] [update_R1; feature_without_registration]
    = Ok s'
    ∧ length [stored_R1] ≤ length s' ≤ length [stored_R1] + 2
    ∧ ∃ r', s' !! 0 = Some r' ∧ extends stored_R1 r'.
Proof.
  destruct (mergeDroneData [stored_R1] [update_R1; feature_without_registration])
    as [s'|] eqn:Hmerge; [|by vm_compute in Hmerge].
  exists s'. split; [done|].
  destruct (mergeDroneData_extends _ _ _ Hmerge) as [Hlen Hext].
  split; [exact Hlen|]. by apply Hext.
Defined.

(** ** Registrations are unique in the store *)

Section StrictEquality.

(** Two binary64 numbers that are [==] compare alike with any third. *)
Lemma SFeqb_finite_inv (s1 s2 : bool) (m1 m2 : positive) (e1 e2 : Z) :
  SFeqb (S754_finite s1 m1 e1) (S754_finite s2 m2 e2) = true →
  s1 = s2 ∧ m1 = m2 ∧ e1 = e2.
Proof.
  unfold SFeqb, SFcompare.
  destruct s1, s2; try done;
    destruct (Z.compare_spec e1 e2) as [->| |]; try done;
    change (PosDef.Pos.compare_cont Eq m1 m2) with (Pos.compare m1 m2);
    destruct (Pos.compare_spec m1 m2) as [->| |]; done.
Qed.

Lemma SFeqb_true_l (x y z : spec_float) :
  SFeqb x y = true → SFeqb x z = SFeqb y z.
Proof.
  destruct x as [s1|s1| |s1 m1 e1], y as [s2|s2| |s2 m2 e2]; try done;
    try (by destruct s1, s2); try (by destruct z).
  by intros (-> & -> & ->)%SFeqb_finite_inv.
Qed.

Lemma SFeqb_true_r (x y z : spec_float) :
  SFeqb x y = true → SFeqb z x = SFeqb z y.
Proof.
  destruct x as [s1|s1| |s1 m1 e1], y as [s2|s2| |s2 m2 e2]; try done;
    try (by destruct s1, s2); try (by destruct z).
  by intros (-> & -> & ->)%SFeqb_finite_inv.
Qed.

(** Values that are [===] compare alike with any third value. *)
Lemma strict_eq_true_l (a b c : prim) :
  strict_eq a b = true → strict_eq a c = strict_eq b c.
Proof.
  destruct a as [|x|s], b as [|y|t]; try done; cbn.
  - intros Hxy. destruct c as [|z|u]; try done. cbn.
    rewrite !FloatAxioms.eqb_spec in *. by apply SFeqb_true_l.
  - by intros ->%String.eqb_eq.
Qed.

Lemma strict_eq_true_r (a b c : prim) :
  strict_eq a b = true → strict_eq c a = strict_eq c b.
Proof.
  destruct a as [|x|s], b as [|y|t]; try done; cbn.
  - intros Hxy. destruct c as [|z|u]; try done. cbn.
    rewrite !FloatAxioms.eqb_spec in *. by apply SFeqb_true_r.
  - by intros ->%String.eqb_eq.
Qed.

Lemma strict_eq_sym (a b : prim) : strict_eq a b = true → strict_eq b a = true.
Proof.
  intros Hab. rewrite <- (strict_eq_true_l a b a Hab).
  by rewrite (strict_eq_true_r a b a Hab).
Qed.

End StrictEquality.

Section OrderedPairs.

Context {A : Type} (R : A → A → Prop).

Lemma ForallOrdPairs_insert (l : list A) (i : nat) (x y : A) :
  ForallOrdPairs R l →
  l !! i = Some x →
  (∀ z, R x z → R y z) →
  (∀ z, R z x → R z y) →
  ForallOrdPairs R (<[i := y]> l).
Proof.
  intros Hl Hi Hleft Hright. revert i Hi.
  induction Hl as [|a l Ha Hl IH]; intros i Hi; [done|].
  destruct i as [|i]; cbn in *.
  - injection Hi as ->. constructor; [|done].
    eapply List.Forall_impl; [|done]. done.
  - constructor; [|by apply IH].
    apply Forall_insert; [done|]. apply Hright.
    by eapply (proj1 (Forall_lookup (R a) l)).
Qed.

Lemma ForallOrdPairs_snoc (l : list A) (y : A) :
  ForallOrdPairs R l →
  Forall (λ x, R x y) l →
  ForallOrdPairs R (l ++ [y]).
Proof.
  induction 1 as [|a l Ha Hl IH]; intros Hy; cbn.
  - by repeat constructor.
  - apply Forall_cons in Hy as [Hay Hy]. constructor; [|by apply IH].
    apply Forall_app. by split; [|repeat constructor].
Qed.

Lemma ForallOrdPairs_lookup (l : list A) (i j : nat) (x y : A) :
  ForallOrdPairs R l →
  i < j → l !! i = Some x → l !! j = Some y → R x y.
Proof.
  intros Hl. revert i j. induction Hl as [|a l Ha Hl IH]; intros i j; [done|].
  destruct i as [|i], j as [|j]; cbn; try lia.
  - intros _ [= ->] Hj. by eapply (proj1 (Forall_lookup (R x) l)).
  - intros Hlt. apply IH. lia.
Qed.

End OrderedPairs.

Lemma mergeFeature_distinct (updated : list DroneRecord) (u : Feature)
    (s' : list DroneRecord) :
  distinct_registrations updated →
  mergeFeature updated u = Ok s' →
  distinct_registrations s'.
Proof.
  unfold distinct_registrations.
  intros Hd (props & geom & _ & _ & [(i & existing & Hex & Hmatch & ->)|[Hnew ->]])
    %mergeFeature_Ok_inv.
  - unfold registration_of in *.
    eapply ForallOrdPairs_insert; [done|done| |]; intros z; cbn [properties];
      rewrite (merged_registration_update _ _ Hmatch).
    + by rewrite (strict_eq_true_l _ _ _ Hmatch).
    + by rewrite (strict_eq_true_r _ _ _ Hmatch).
  - by apply ForallOrdPairs_snoc.
Qed.

Lemma mergeDroneData_distinct (features : list Feature)
    (s s' : list DroneRecord) :
  distinct_registrations s →
  mergeDroneData s features = Ok s' →
  distinct_registrations s'.
Proof.
  unfold mergeDroneData. revert s.
  induction features as [|u features IH]; intros s Hd; cbn.
  - by intros [= <-].
  - destruct (mergeFeature s u) as [s1|] eqn:Hstep; cbn; [|done].
    apply IH. by eapply mergeFeature_distinct.
Qed.

Lemma reachable_distinct (s : list DroneRecord) :
  reachable s → distinct_registrations s.
Proof.
  induction 1 as [|s features s' _ IH Hmerge]; [constructor|].
  by eapply mergeDroneData_distinct.
Qed.

(** X3. In every store reached by merges from the empty store the
    registrations are unique: no two records at different indices have
    registrations that are [===]. *)
Theorem reachable_registrations_unique (s : list DroneRecord) (i j : nat)
    (ri rj : DroneRecord) :
  reachable s →
  i ≠ j →
  s !! i = Some ri →
  s !! j = Some rj →
  strict_eq (registration_of ri) (registration_of rj) = false.
Proof.
  intros Hd%reachable_distinct Hne Hi Hj.
  destruct (decide (i < j)) as [Hlt|Hge].
  - exact (ForallOrdPairs_lookup _ s i j ri rj Hd Hlt Hi Hj).
  - apply not_true_is_false. intros Heq%strict_eq_sym.
    assert (j < i) as Hlt by lia.
    pose proof (ForallOrdPairs_lookup _ s j i rj ri Hd Hlt Hj Hi) as Hfalse.
    cbn in Hfalse. congruence.
Qed.

Lemma store_two_reachable : reachable store_two.
Proof.
  apply (reachable_merge []
           [feature "R1-B1" "Dji Mavic" (10, 20)%float;
            feature "R2-A1" "Dji Air" (11, 21)%float]);
    [apply reachable_init | vm_compute; reflexivity].
Qed.

Lemma reachable_registrations_unique_witness :
  strict_eq
    (registration_of
       (record {[ "registration" := PStr "R1-B1"; "Name" := PStr "Dji Mavic" ]}
               (10, 20)%float))
    (registration_of
       (record {[ "registration" := PStr "R2-A1"; "Name" := PStr "Dji Air" ]}
               (11, 21)%float))
  = false.
Proof.
  apply (reachable_registrations_unique store_two 0 1);
    [apply store_two_reachable | lia | reflexivity | reflexivity].
Defined.

(** ** The list view *)

(** An item has the classes of a highlighted item only when its
    registration is the selected string. *)
Lemma getDroneItemClasses_selected (selected : option string)
    (registration : prim) :
  getDroneItemClasses selected registration = SELECTED_CLASSES →
  ∃ reg, selected = Some reg ∧ registration = PStr reg.
Proof.
  unfold getDroneItemClasses.
  destruct (isSelected selected registration) eqn:Hsel.
  - intros _. destruct selected as [reg|]; [|done]. exists reg.
    split; [done|]. symmetry. by apply strict_eq_eq.
  - intros Heq. vm_compute in Heq. discriminate Heq.
Qed.

(** X4. In every store reached by merges, at most one item of the drone
    list is highlighted as selected: two records whose items both get the
    classes of the selected item are the same record. *)
Theorem list_highlights_one (s : list DroneRecord) (selected : option string)
    (i j : nat) (ri rj : DroneRecord) :
  reachable s →
  s !! i = Some ri →
  s !! j = Some rj →
  getDroneItemClasses selected (registration_of ri) = SELECTED_CLASSES →
  getDroneItemClasses selected (registration_of rj) = SELECTED_CLASSES →
  i = j.
Proof.
  intros Hd%reachable_distinct Hi Hj
    (reg & -> & Hri)%getDroneItemClasses_selected
    (reg' & [= <-] & Hrj)%getDroneItemClasses_selected.
  assert (strict_eq (registration_of ri) (registration_of rj) = true) as Heq.
  { rewrite Hri, Hrj. apply String.eqb_refl. }
  destruct (Nat.lt_trichotomy i j) as [Hlt|[->|Hlt]]; [|done|].
  - pose proof (ForallOrdPairs_lookup _ s i j ri rj Hd Hlt Hi Hj) as Hne.
    cbn in Hne. congruence.
  - apply strict_eq_sym in Heq.
    pose proof (ForallOrdPairs_lookup _ s j i rj ri Hd Hlt Hj Hi) as Hne.
    cbn in Hne. congruence.
Qed.

Lemma list_highlights_one_witness :
  getDroneItemClasses (Some "R2-A1") (PStr "R2-A1") = SELECTED_CLASSES
  ∧ 1 = 1.
Proof.
  split; [reflexivity|].
  eapply (list_highlights_one store_two (Some "R2-A1") 1 1);
    [apply store_two_reachable | reflexivity | reflexivity
    | reflexivity | reflexivity].
Defined.

(** ** Statistics, continued *)

Lemma filterM_throws {A} (p : A → result bool) (l : list A) :
  Exists (λ x, p x = TypeError) l → filterM p l = TypeError.
Proof.
  induction 1 as [x l Hx|x l _ IH]; cbn.
  - by rewrite Hx.
  - rewrite IH. by destruct (p x).
Qed.

(** A filter whose callback never throws is the filter of its values. *)
Lemma filterM_pure {A} (p : A → result bool) (q : A → bool) (l : list A) :
  Forall (λ x, p x = Ok (q x)) l →
  filterM p l = Ok (filter (λ x, q x = true) l).
Proof.
  induction 1 as [|x l Hx _ IH]; [done|].
  rewrite filter_cons. cbn [filterM]. rewrite Hx, IH. by destruct (q x).
Qed.

Lemma calculateDroneStats_throws (droneData : list DroneRecord) :
  Exists (λ drone, is_string (registration_of drone) = false) droneData →
  calculateDroneStats droneData = TypeError.
Proof.
  intros Hex. unfold calculateDroneStats.
  rewrite (filterM_throws (λ drone, isDroneActive (registration_of drone)));
    [done|].
  eapply List.Exists_impl; [|done]. intros drone. cbn.
  by destruct (registration_of drone).
Qed.

(** X5. [calculateDroneStats] returns exactly when every record has a
    string for registration; one record whose registration is missing or is
    a number makes it throw. *)
Theorem calculateDroneStats_returns_iff (droneData : list DroneRecord) :
  (∃ st, calculateDroneStats droneData = Ok st)
  ↔ Forall (λ drone, is_string (registration_of drone) = true) droneData.
Proof.
  split.
  - intros [st Hst].
    destruct (decide (Forall (λ drone, is_string (registration_of drone) = true)
                             droneData)) as [|Hnot]; [done|].
    apply not_Forall_Exists in Hnot; [|apply _].
    rewrite calculateDroneStats_throws in Hst; [done|].
    eapply List.Exists_impl; [|done]. intros drone. cbn.
    by destruct (is_string (registration_of drone)).
  - intros Hstr. unfold calculateDroneStats.
    destruct (filterM_partition
                (λ drone, isDroneActive (registration_of drone)) droneData)
      as (yes & no & -> & -> & _); [|by eexists].
    eapply Forall_impl; [done|]. intros drone. apply isDroneActive_string.
Qed.

(** [isDroneActive] in terms of the classifier of the map. *)
Lemma isDroneActive_shown (drone : DroneRecord) :
  is_string (registration_of drone) = true →
  isDroneActive (registration_of drone) = Ok (negb (shownActive drone)).
Proof.
  unfold shownActive, isDroneActive, getDroneStatus, ACTIVE_PREFIX.
  destruct (registration_of drone) as [| |reg]; try done. intros _.
  destruct (secondSegment_string reg "B") as [[[]|] ->]; done.
Qed.

(** X6. What the counters count: the [active] count is the number of
    records that the map shows as inactive (red), and the [inactive] count
    the number it shows as active (green). *)
Theorem calculateDroneStats_counts (droneData : list DroneRecord) (st : Stats) :
  calculateDroneStats droneData = Ok st →
  active st = length (filter (λ drone, shownActive drone = false) droneData)
  ∧ inactive st = length (filter (λ drone, shownActive drone = true) droneData)
  ∧ total st = length droneData.
Proof.
  intros Hst.
  assert (Forall (λ drone, is_string (registration_of drone) = true) droneData)
    as Hstr.
  { destruct (decide (Forall (λ drone, is_string (registration_of drone) = true)
                             droneData)) as [|Hnot]; [done|].
    apply not_Forall_Exists in Hnot; [|apply _].
    rewrite calculateDroneStats_throws in Hst; [done|].
    eapply List.Exists_impl; [|done]. intros drone. cbn.
    by destruct (is_string (registration_of drone)). }
  unfold calculateDroneStats in Hst.
  rewrite (filterM_pure (λ drone, isDroneActive (registration_of drone))
             (λ drone, negb (shownActive drone))) in Hst.
  2:{ eapply Forall_impl; [done|]. intros drone. apply isDroneActive_shown. }
  rewrite (filterM_pure
             (λ drone, negb <$> isDroneActive (registration_of drone))
             (λ drone, shownActive drone)) in Hst.
  2:{ eapply Forall_impl; [done|]. intros drone Hd. cbn.
      rewrite (isDroneActive_shown drone Hd). cbn. by rewrite negb_involutive. }
  cbn in Hst. injection Hst as <-. cbn. split; [|done].
  f_equal. apply list_filter_iff. intros drone. by destruct (shownActive drone).
Qed.

Lemma calculateDroneStats_counts_witness :
  active {| active := 1; inactive := 1; total := 2 |}
  = length (filter (λ drone, shownActive drone = false) store_two)
  ∧ inactive {| active := 1; inactive := 1; total := 2 |}
    = length (filter (λ drone, shownActive drone = true) store_two)
  ∧ total {| active := 1; inactive := 1; total := 2 |} = length store_two.
Proof.
  apply (calculateDroneStats_counts store_two). vm_compute. reflexivity.
Defined.

Lemma calculateDroneStats_returns_iff_witness :
  ∃ st, calculateDroneStats store_two = Ok st.
Proof.
  apply (proj2 (calculateDroneStats_returns_iff store_two)).
  by repeat constructor.
Defined.

(** ** An update without a registration and the statistics *)

Lemma strict_eq_is_string (a b : prim) :
  strict_eq a b = true → is_string a = is_string b.
Proof. by destruct a, b. Qed.

Lemma mergeFeature_keeps_unnamed (updated : list DroneRecord) (u : Feature)
    (s' : list DroneRecord) :
  mergeFeature updated u = Ok s' →
  Exists (λ drone, is_string (registration_of drone) = false) updated
  ∨ is_string (update_registration u) = false →
  Exists (λ drone, is_string (registration_of drone) = false) s'.
Proof.
  intros (props & geom & Hprops & _
          & [(i & existing & Hex & Hmatch & ->)|[_ ->]])%mergeFeature_Ok_inv.
  - unfold update_registration. rewrite Hprops. cbn.
    pose proof (lookup_lt_Some _ _ _ Hex) as Hlt.
    assert (is_string (update_registration u) = false ∨
            is_string (registration_of existing) = false →
            Exists (λ drone, is_string (registration_of drone) = false)
              (<[i := {| rest := rest existing;
                         positions := positions existing ++ [coordinates geom];
                         geometry := geom;
                         properties := spread2 (properties existing) props |}]>
                 updated)) as Hmerged.
    { intros Hu. apply Exists_exists. eexists.
      split; [by apply list_elem_of_insert|].
      unfold registration_of in *. cbn [properties].
      rewrite (merged_registration_update _ _ Hmatch).
      rewrite <- (strict_eq_is_string _ _ Hmatch).
      destruct Hu as [Hu|Hu]; [|done].
      unfold update_registration in Hu. rewrite Hprops in Hu. cbn in Hu.
      by rewrite (strict_eq_is_string _ _ Hmatch). }
    intros [(drone & [j Hj]%list_elem_of_lookup & Hdrone)%Exists_exists|Hu].
    + destruct (decide (i = j)) as [->|Hne].
      * apply Hmerged. right. congruence.
      * apply Exists_exists. exists drone. split; [|done].
        apply list_elem_of_lookup. exists j. by rewrite list_lookup_insert_ne.
    + apply Hmerged. left. unfold update_registration. by rewrite Hprops.
  - unfold update_registration. rewrite Hprops. cbn.
    intros [Hold|Hu]; apply Exists_app; [by left|right].
    by apply Exists_cons_hd.
Qed.

Lemma mergeDroneData_keeps_unnamed (features : list Feature)
    (s s' : list DroneRecord) :
  mergeDroneData s features = Ok s' →
  Exists (λ drone, is_string (registration_of drone) = false) s
  ∨ Exists (λ u, is_string (update_registration u) = false) features →
  Exists (λ drone, is_string (registration_of drone) = false) s'.
Proof.
  unfold mergeDroneData. revert s.
  induction features as [|u features IH]; intros s; cbn.
  - intros [= <-] [Hs|Hu]; [done|]. by apply Exists_nil in Hu.
  - destruct (mergeFeature s u) as [s1|] eqn:Hstep; cbn; [|done].
    intros Hrest Hsome. apply (IH s1 Hrest).
    destruct Hsome as [Hs|[Hu|Hu]%Exists_cons]; [left|left|by right].
    + apply (mergeFeature_keeps_unnamed _ _ _ Hstep). by left.
    + apply (mergeFeature_keeps_unnamed _ _ _ Hstep). by right.
Qed.

(** X7. An update whose registration is missing (or is a number) breaks
    the statistics for good: once such an update is merged, the store has a
    record without a registration string, every later merge keeps one, and
    [calculateDroneStats] throws on the store. *)
Theorem unnamed_update_breaks_stats (features : list Feature)
    (s s' : list DroneRecord) :
  mergeDroneData s features = Ok s' →
  Exists (λ drone, is_string (registration_of drone) = false) s
  ∨ Exists (λ u, is_string (update_registration u) = false) features →
  calculateDroneStats s' = TypeError.
Proof.
  intros Hmerge Hsome. apply calculateDroneStats_throws.
  by eapply mergeDroneData_keeps_unnamed.
Qed.

Lemma unnamed_update_breaks_stats_witness :
  ∃ s',
    mergeDroneData store_two [feature_without_registration; update_R1] = Ok s'
    ∧ calculateDroneStats s' = TypeError.
Proof.
  destruct (mergeDroneData store_two [feature_without_registration; update_R1])
    as [s'|] eqn:Hmerge; [|by vm_compute in Hmerge].
  exists s'. split; [done|].
  apply (unnamed_update_breaks_stats _ _ _ Hmerge).
  right. by apply Exists_cons_hd.
Defined.

(** ** The classifier, in full *)

(** A registration has no ['-'] or splits at its first ['-']. *)
Lemma first_dash (s : string) :
  lacks "-" s = true
  ∨ ∃ x y, lacks "-" x = true ∧ s = (x ++ String "-" y)%string.
Proof.
  induction s as [|c s IH]; [by left|].
  destruct (Ascii.eqb c "-") eqn:Hc.
  - right. exists EmptyString, s. split; [done|].
    apply Ascii.eqb_eq in Hc. by subst.
  - destruct IH as [Hs|(x & y & Hx & ->)].
    + left. cbn. by rewrite Hc.
    + right. exists (String c x), y. split; [|done]. cbn. by rewrite Hc.
Qed.

(** The first segment of what follows the first ['-'] starts with the
    marker exactly when what follows does. *)
Lemma head_split_startsWith (y : string) :
  (λ seg, startsWith seg "B") <$> head (split "-" y) = Some (startsWith y "B").
Proof.
  destruct y as [|c tl]; [done|]. rewrite startsWith_char.
  destruct (Ascii.eqb c "-") eqn:Hc.
  - apply Ascii.eqb_eq in Hc. by subst c.
  - destruct (split_head "-" c tl Hc) as (seg & segs & ->).
    cbn [head fmap option_fmap option_map]. by rewrite startsWith_char.
Qed.

Lemma secondSegment_after_dash (x y : string) :
  lacks "-" x = true →
  secondSegmentStartsWith (PStr (x ++ String "-" y)) "B"
  = Ok (Some (startsWith y "B")).
Proof.
  intros Hx. unfold secondSegmentStartsWith. rewrite (split_app _ _ _ Hx).
  cbn [lookup list_lookup]. f_equal.
  rewrite <- head_split_startsWith. by destruct (split "-" y).
Qed.

(** X8. [getDroneStatus] returns the status ["Active"] on exactly the
    registration strings in which a 'B' follows the first ['-']; on every
    other string (no ['-'], nothing or another character after the first
    ['-'], a lower-case 'b') it returns ["Inactive"]. *)
Theorem getDroneStatus_active_iff (registration : string) :
  (classifiedActive <$> getDroneStatus (PStr registration) = Ok true
   ↔ ∃ x tl, lacks "-" x = true ∧ registration = (x ++ "-B" ++ tl)%string)
  ∧ (classifiedActive <$> getDroneStatus (PStr registration) = Ok true
     ∨ status <$> getDroneStatus (PStr registration) = Ok "Inactive").
Proof.
  split.
  - split.
    + destruct (first_dash registration) as [Hs|(x & y & Hx & ->)].
      * unfold getDroneStatus. by rewrite (secondSegment_missing _ _ Hs).
      * unfold getDroneStatus. rewrite (secondSegment_after_dash _ _ Hx).
        destruct y as [|c tl]; [done|]. rewrite startsWith_char.
        destruct (Ascii.eqb c "B") eqn:Hc; [|done]. intros _.
        apply Ascii.eqb_eq in Hc. subst c. by exists x, tl.
    + intros (x & tl & Hx & ->). unfold getDroneStatus.
      change (x ++ "-B" ++ tl)%string
        with (x ++ String "-" (String "B" tl))%string.
      by rewrite secondSegment_marked.
  - unfold getDroneStatus.
    destruct (secondSegment_string registration "B") as [[[]|] ->];
      cbn; by auto.
Qed.

(** ** The curve smoother, point by point *)

(** X9. [createCurvedPath] returns a sequence of fewer than two points
    unchanged, and for [n ≥ 2] points a sequence of
    [2 + CURVE_STEPS * (n - 1)] points. *)
Theorem createCurvedPath_size (coordinates : list point) :
  (length coordinates < 2 → createCurvedPath coordinates = coordinates)
  ∧ (2 ≤ length coordinates →
     length (createCurvedPath coordinates)
     = 2 + CURVE_STEPS * (length coordinates - 1)).
Proof.
  destruct coordinates as [|a [|b l]]; cbn [length]; split; try done; try lia.
  intros _. rewrite createCurvedPath_length. cbn [length].
  unfold CURVE_STEPS. lia.
Qed.

Lemma createCurvedPath_size_witness :
  createCurvedPath [(35.5, 31.75)%float] = [(35.5, 31.75)%float]
  ∧ length (createCurvedPath [(35.5, 31.75); (35.75, 32); (36, 31.5)]%float)
    = 2 + CURVE_STEPS * 2.
Proof.
  split.
  - apply (proj1 (createCurvedPath_size [(35.5, 31.75)%float])). cbn. lia.
  - apply (proj2 (createCurvedPath_size
                    [(35.5, 31.75); (35.75, 32); (36, 31.5)]%float)).
    cbn. lia.
Defined.

(** The samples of the segments after the first one, by index. *)
Lemma segments_lookup (coordinates : list point) (i j t : nat) (a b : point) :
  coordinates !! j = Some a →
  coordinates !! S j = Some b →
  1 ≤ t ≤ 20 →
  segments (S i) coordinates !! (20 * j + (t - 1))
  = Some (bezier a (controlPoint a b) b t).
Proof.
  revert i j. induction coordinates as [|a0 l IH]; intros i j; [done|].
  destruct l as [|b0 l]; [by destruct j|].
  change (segments (S i) (a0 :: b0 :: l))
    with (segment (S i) a0 b0 ++ segments (S (S i)) (b0 :: l)).
  assert (length (segment (S i) a0 b0) = 20) as Hlen
    by (by rewrite segment_length).
  intros Ha Hb Ht. destruct j as [|j].
  - cbn in Ha, Hb. injection Ha as ->. injection Hb as ->.
    rewrite lookup_app_l by lia.
    rewrite segment_samples. cbn [Nat.eqb app].
    rewrite list_lookup_fmap, Nat.mul_0_r, Nat.add_0_l.
    change CURVE_STEPS with 20. rewrite lookup_seq_lt by lia.
    cbn. do 2 f_equal. lia.
  - rewrite lookup_app_r by lia. rewrite Hlen.
    replace (20 * S j + (t - 1) - 20) with (20 * j + (t - 1)) by lia.
    by apply IH.
Qed.

(** The output, by index: the first input point, then the sample at [t]
    of segment [j] at index [1 + 20 * j + t]. *)
Lemma createCurvedPath_lookup (coordinates : list point) (j t : nat)
    (a b : point) :
  coordinates !! j = Some a →
  coordinates !! S j = Some b →
  t ≤ 20 →
  1 ≤ t ∨ j = 0 →
  createCurvedPath coordinates !! (1 + 20 * j + t)
  = Some (bezier a (controlPoint a b) b t).
Proof.
  destruct coordinates as [|a0 [|b0 l]]; [done|by destruct j|].
  change (createCurvedPath (a0 :: b0 :: l))
    with (a0 :: segment 0 a0 b0 ++ segments 1 (b0 :: l)).
  assert (length (segment 0 a0 b0) = 21) as Hlen
    by (by rewrite segment_length).
  intros Ha Hb Ht Hfirst.
  change (1 + 20 * j + t) with (S (20 * j + t)). rewrite lookup_cons.
  destruct j as [|j].
  - cbn in Ha, Hb. injection Ha as ->. injection Hb as ->.
    rewrite Nat.mul_0_r, Nat.add_0_l.
    rewrite lookup_app_l by lia.
    rewrite segment_samples. cbn [Nat.eqb].
    destruct t as [|t]; [done|]. cbn [app]. rewrite lookup_cons.
    change CURVE_STEPS with 20.
    rewrite list_lookup_fmap, lookup_seq_lt by lia. done.
  - destruct Hfirst as [Hfirst|]; [|done].
    rewrite lookup_app_r by lia. rewrite Hlen.
    replace (20 * S j + t - 21) with (20 * j + (t - 1)) by lia.
    by apply segments_lookup.
Qed.

(** X10. The output of [createCurvedPath], by index: for [n ≥ 2] input
    points it is the first input point followed by the samples of the
    segments in order; the sample at [t] of the segment from
    [coordinates[j]] to [coordinates[j + 1]] is at index
    [1 + CURVE_STEPS * j + t], for [t] from 1 ([0] for the first segment)
    to [CURVE_STEPS]. *)
Theorem createCurvedPath_samples (coordinates : list point) (j t : nat)
    (a b : point) :
  coordinates !! j = Some a →
  coordinates !! S j = Some b →
  t ≤ CURVE_STEPS →
  1 ≤ t ∨ j = 0 →
  createCurvedPath coordinates !! 0 = coordinates !! 0
  ∧ createCurvedPath coordinates !! (1 + CURVE_STEPS * j + t)
    = Some (bezier a (controlPoint a b) b t).
Proof.
  intros Ha Hb Ht Hfirst. split; [|by apply createCurvedPath_lookup].
  destruct coordinates as [|a0 [|b0 l]]; [done|by destruct j|done].
Qed.

Lemma createCurvedPath_samples_witness :
  createCurvedPath [(35.5, 31.75); (35.75, 32); (36, 31.5)]%float !! 0
  = Some (35.5, 31.75)%float
  ∧ createCurvedPath [(35.5, 31.75); (35.75, 32); (36, 31.5)]%float !! 31
    = Some (bezier (35.75, 32)%float
              (controlPoint (35.75, 32)%float (36, 31.5)%float)
              (36, 31.5)%float 10).
Proof.
  apply (createCurvedPath_samples
           [(35.5, 31.75); (35.75, 32); (36, 31.5)]%float 1 10);
    [reflexivity | reflexivity | unfold CURVE_STEPS; lia | left; lia].
Defined.

(** X11. The curve goes through every input point: when the segment from
    [coordinates[j]] to [coordinates[j + 1]] and its control point are
    finite, the output has the numbers of [coordinates[j + 1]] at index
    [1 + CURVE_STEPS * (j + 1)]. *)
Theorem createCurvedPath_through_points (coordinates : list point) (j : nat)
    (a b : point) :
  coordinates !! j = Some a →
  coordinates !! S j = Some b →
  finite_point a = true →
  finite_point b = true →
  finite_point (controlPoint a b) = true →
  ∃ p,
    createCurvedPath coordinates !! (1 + CURVE_STEPS * S j) = Some p
    ∧ same_numbers p b = true.
Proof.
  intros Ha Hb. unfold finite_point.
  intros [Hs0 Hs1]%andb_prop [He0 He1]%andb_prop [Hc0 Hc1]%andb_prop.
  eexists. split.
  - change CURVE_STEPS with 20.
    replace (1 + 20 * S j) with (1 + 20 * j + 20) by lia.
    apply (createCurvedPath_lookup coordinates j 20); [done|done|lia|left; lia].
  - rewrite bezier_end. unfold same_numbers. cbn [lng lat fst snd].
    apply andb_true_intro. split; by apply weighted_sum_end.
Qed.

Lemma createCurvedPath_through_points_witness :
  ∃ p,
    createCurvedPath [(35.5, 31.75); (35.75, 32); (36, 31.5)]%float !! 21
    = Some p
    ∧ same_numbers p (35.75, 32)%float = true.
Proof.
  apply (createCurvedPath_through_points
           [(35.5, 31.75); (35.75, 32); (36, 31.5)]%float 0
           (35.5, 31.75)%float (35.75, 32)%float);
    vm_compute; reflexivity.
Defined.

Lemma createCurvedPath_first_twice_witness :
  ∃ p tl,
    createCurvedPath [(35.5, 31.75); (35.75, 32); (36, 31.5)]%float
    = (35.5, 31.75)%float :: p :: tl
    ∧ same_numbers (35.5, 31.75)%float p = true.
Proof.
  apply (createCurvedPath_first_twice (35.5, 31.75)%float (35.75, 32)%float
           [(36, 31.5)%float]);
    vm_compute; reflexivity.
Defined.

(** ** Histories, counted by registration *)

Lemma sum_list_with_insert {A} (f : A → nat) (l : list A) (i : nat) (x y : A) :
  l !! i = Some x →
  sum_list_with f (<[i := y]> l) + f x = sum_list_with f l + f y.
Proof.
  intros Hi. rewrite insert_take_drop by (by eapply lookup_lt_Some).
  rewrite <- (take_drop_middle l i x Hi) at 3.
  rewrite !sum_list_with_app. cbn. lia.
Qed.

Lemma mergeFeature_history_count (updated : list DroneRecord) (u : Feature)
    (s' : list DroneRecord) (v : prim) :
  mergeFeature updated u = Ok s' →
  history_count s' v
  = history_count updated v
    + (if strict_eq (update_registration u) v then 1 else 0).
Proof.
  intros (props & geom & Hprops & _
          & [(i & existing & Hex & Hmatch & ->)|[_ ->]])%mergeFeature_Ok_inv;
    unfold update_registration, history_count; rewrite Hprops; cbn [from_option].
  - pose proof (sum_list_with_insert
                  (λ drone, if strict_eq (registration_of drone) v
                            then length (positions drone) else 0)
                  updated i existing
                  {| rest := rest existing;
                     positions := positions existing ++ [coordinates geom];
                     geometry := geom;
                     properties := spread2 (properties existing) props |}
                  Hex) as Hsum.
    cbn beta in Hsum. unfold registration_of in *. cbn [properties positions] in Hsum.
    rewrite (merged_registration_update _ _ Hmatch) in Hsum.
    rewrite (strict_eq_true_l _ _ v Hmatch) in Hsum.
    rewrite length_app in Hsum. cbn [length] in Hsum.
    destruct (strict_eq (get props "registration") v); lia.
  - rewrite sum_list_with_app. cbn. unfold registration_of. cbn.
    destruct (strict_eq (get props "registration") v); lia.
Qed.

(** X15. Every update is credited to its own registration: after a merge
    that returns, the number of positions recorded under a registration is
    what it was plus the number of updates of the batch with that
    registration. *)
Theorem mergeDroneData_history_count (features : list Feature)
    (s s' : list DroneRecord) (v : prim) :
  mergeDroneData s features = Ok s' →
  history_count s' v
  = history_count s v
    + length (filter (λ u, strict_eq (update_registration u) v = true) features).
Proof.
  unfold mergeDroneData. revert s.
  induction features as [|u features IH]; intros s; cbn [forEachM].
  - intros [= <-]. rewrite filter_nil. cbn. lia.
  - rewrite filter_cons.
    destruct (mergeFeature s u) as [s1|] eqn:Hstep; [|done].
    intros Hrest. rewrite (IH s1 Hrest).
    rewrite (mergeFeature_history_count _ _ _ v Hstep).
    destruct (strict_eq (update_registration u) v).
    + rewrite decide_True by done. cbn [length]. lia.
    + rewrite decide_False by done. lia.
Qed.

Lemma mergeDroneData_history_count_witness :
  ∃ s',
    mergeDroneData store_two
      [feature "R1-B1" "Dji Mavic" (10.5, 20.5)%float;
       feature "R3-B7" "Dji Mini" (12, 22)%float;
       feature "R1-B1" "Dji Mavic" (11, 21)%float] = Ok s'
    ∧ history_count s' (PStr "R1-B1") = history_count store_two (PStr "R1-B1") + 2.
Proof.
  destruct (mergeDroneData store_two
              [feature "R1-B1" "Dji Mavic" (10.5, 20.5)%float;
               feature "R3-B7" "Dji Mini" (12, 22)%float;
               feature "R1-B1" "Dji Mavic" (11, 21)%float])
    as [s'|] eqn:Hmerge; [|by vm_compute in Hmerge].
  exists s'. split; [done|].
  apply (mergeDroneData_history_count _ _ _ (PStr "R1-B1") Hmerge).
Defined.

(** ** The flight path drawn for a drone *)

(** On coordinate pairs the loop pushes the points of [segments]. *)
Lemma segments_array_points (i : nat) (points : list point) :
  segments_array i (Some <$> points) = Ok (segments i points).
Proof.
  revert i. induction points as [|start [|end_ tl] IH]; intros i; [done..|].
  specialize (IH (S i)). cbn in IH |- *. by rewrite IH.
Qed.

(** An [undefined] position makes the loop throw, whether it is read as
    the start or as the end of a segment. *)
Lemma segments_array_undefined (i : nat) (coordinates : list position) :
  2 ≤ length coordinates →
  None ∈ coordinates →
  segments_array i coordinates = TypeError.
Proof.
  revert i. induction coordinates as [|start [|end_ tl] IH]; intros i Hlen;
    [cbn in Hlen; lia..|].
  intros Hnone. destruct start as [start|]; [|done].
  destruct end_ as [end_|]; [|done].
  apply elem_of_cons in Hnone as [?|Hnone]; [done|].
  assert (segments_array (S i) (Some end_ :: tl) = TypeError) as Htl.
  { apply IH; [|done].
    destruct tl as [|x tl]; [|cbn; lia].
    apply elem_of_cons in Hnone as [?|Hnone]; [done|].
    by apply elem_of_nil in Hnone. }
  cbn in Htl |- *. by rewrite Htl.
Qed.

(** An array has an [undefined] element or is an array of pairs. *)
Lemma positions_defined (coordinates : list position) :
  None ∈ coordinates ∨ ∃ points, coordinates = Some <$> points.
Proof.
  induction coordinates as [|[p|] l [IH|[points ->]]].
  - right. by exists [].
  - left. by apply elem_of_cons; right.
  - right. by exists (p :: points).
  - left. apply list_elem_of_here.
  - left. apply list_elem_of_here.
Qed.

Lemma createCurvedPath_array_points (points : list point) :
  createCurvedPath_array (Some <$> points)
  = Ok (Some <$> createCurvedPath points).
Proof.
  destruct points as [|first [|second tl]]; [done..|].
  pose proof (segments_array_points 0 (first :: second :: tl)) as Hloop.
  unfold createCurvedPath_array, createCurvedPath.
  cbn [fmap list_fmap] in Hloop |- *. by rewrite Hloop.
Qed.

(** With two positions or more, all of them coordinate pairs, the line
    is the smoothed history. *)
Lemma flightPath_points (drone : DroneRecord) (points : list point) :
  2 ≤ length points →
  positions drone = Some <$> points →
  flightPath drone = Ok (Some (Some <$> createCurvedPath points)).
Proof.
  unfold flightPath.
  intros Hlen ->. rewrite length_fmap.
  rewrite (proj2 (Nat.ltb_lt _ _)) by lia.
  by rewrite createCurvedPath_array_points.
Qed.

(** X16. The line of a drone, case by case: no line is set for a drone
    with a single recorded position; with two positions or more,
    [createCurvedPath] throws exactly when one of them is [undefined], and
    when all are coordinate pairs the line is the smoothed history. *)
Theorem flightPath_cases (drone : DroneRecord) :
  (length (positions drone) ≤ 1 → flightPath drone = Ok None)
  ∧ (2 ≤ length (positions drone) →
     (flightPath drone = TypeError ↔ None ∈ positions drone))
  ∧ (∀ points,
       2 ≤ length points →
       positions drone = Some <$> points →
       flightPath drone = Ok (Some (Some <$> createCurvedPath points))).
Proof.
  split; [|split].
  - unfold flightPath. intros Hlen. by rewrite (proj2 (Nat.ltb_ge _ _)) by lia.
  - intros Hlen. split.
    + intros Hthrows.
      destruct (positions_defined (positions drone)) as [|[points Hpoints]];
        [done|].
      rewrite (flightPath_points drone points) in Hthrows; [done| |done].
      by rewrite Hpoints, length_fmap in Hlen.
    + intros Hnone. unfold flightPath, createCurvedPath_array.
      rewrite (proj2 (Nat.ltb_lt _ _)) by lia.
      pose proof (segments_array_undefined 0 _ Hlen Hnone) as Hloop.
      destruct (positions drone) as [|first [|second tl]];
        [cbn in Hlen; lia..|].
      by rewrite Hloop.
  - apply flightPath_points.
Qed.

Lemma flightPath_cases_witness :
  flightPath stored_R1 = Ok None
  ∧ flightPath flown_R1
    = Ok (Some (Some <$> createCurvedPath [(10, 20); (11, 21)]%float)).
Proof.
  split.
  - apply (proj1 (flightPath_cases stored_R1)). cbn. lia.
  - apply (proj2 (proj2 (flightPath_cases flown_R1))
             [(10, 20); (11, 21)]%float); [cbn; lia|reflexivity].
Defined.

Lemma reachable_history (s : list DroneRecord) :
  reachable s → Forall history_ok s.
Proof.
  induction 1 as [|s features s' _ IH Hmerge]; [by constructor|].
  by eapply mergeDroneData_history.
Qed.

(** X17. The line drawn for a drone starts at its first recorded position
    and ends at its marker: for a record of a reachable store whose history
    holds coordinate pairs only, at least two of them, the line starts with
    the first pair of the history, and when the last two pairs and their
    control point are finite its last point has the numbers of the record's
    current position. *)
Theorem flightPath_ends_at_marker (s : list DroneRecord) (drone : DroneRecord)
    (pre : list point) (a b : point) :
  reachable s →
  drone ∈ s →
  positions drone = Some <$> (pre ++ [a; b]) →
  finite_point a = true →
  finite_point b = true →
  finite_point (controlPoint a b) = true →
  ∃ path p,
    flightPath drone = Ok (Some path)
    ∧ head path = head (positions drone)
    ∧ last path = Some (Some p)
    ∧ currentPosition drone = Some b
    ∧ same_numbers p b = true.
Proof.
  intros Hs%reachable_history Hdrone Hpos.
  unfold finite_point.
  intros [Hs0 Hs1]%andb_prop [He0 He1]%andb_prop [Hc0 Hc1]%andb_prop.
  pose proof (proj1 (Forall_forall _ _) Hs drone Hdrone) as [_ Hlast].
  rewrite Hpos, fmap_app, last_app in Hlast. cbn in Hlast.
  injection Hlast as Hcurrent.
  destruct (createCurvedPath_shape pre a b) as (first & body & Hhead & Hpath).
  exists (Some <$> createCurvedPath (pre ++ [a; b])),
         (bezier a (controlPoint a b) b CURVE_STEPS).
  split; [|split; [|split; [|split]]].
  - apply flightPath_points; [|done].
    rewrite length_app. cbn. lia.
  - rewrite Hpos, Hpath. cbn. destruct pre; cbn in *; congruence.
  - rewrite Hpath, app_comm_cons, fmap_app. apply last_snoc.
  - done.
  - rewrite bezier_end. unfold same_numbers. cbn [lng lat fst snd].
    apply andb_true_intro. split; by apply weighted_sum_end.
Qed.

Lemma flown_R1_reachable : reachable [flown_R1].
Proof.
  apply (reachable_merge
           [record {[ "registration" := PStr "R1"; "Name" := PStr "Dji Mavic" ]}
                   (10, 20)%float]
           [update_R1]).
  - apply (reachable_merge [] [feature "R1" "Dji Mavic" (10, 20)%float]);
      [apply reachable_init | vm_compute; reflexivity].
  - vm_compute. reflexivity.
Qed.

Lemma flightPath_ends_at_marker_witness :
  ∃ path p,
    flightPath flown_R1 = Ok (Some path)
    ∧ head path = head (positions flown_R1)
    ∧ last path = Some (Some p)
    ∧ currentPosition flown_R1 = Some (11, 21)%float
    ∧ same_numbers p (11, 21)%float = true.
Proof.
  apply (flightPath_ends_at_marker [flown_R1] flown_R1 []
           (10, 20)%float (11, 21)%float).
  - apply flown_R1_reachable.
  - apply list_elem_of_here.
  - reflexivity.
  - vm_compute. reflexivity.
  - vm_compute. reflexivity.
  - vm_compute. reflexivity.
Defined.

(** ** The page over a whole session *)

(** *** Timeouts *)

Lemma filter_none_due (now : Z) (l : list Z) :
  filter (λ d, (d ≤ now)%Z) l = [] → filter (λ d, (now < d)%Z) l = l.
Proof.
  induction l as [|d l IH]; [done|]. rewrite !filter_cons.
  destruct (decide (d ≤ now)%Z) as [Hd|Hd]; [done|].
  intros Hl. rewrite decide_True by lia. by rewrite IH.
Qed.

Lemma filter_all_due (now : Z) (l : list Z) :
  Forall (λ d, (d ≤ now)%Z) l → filter (λ d, (d ≤ now)%Z) l = l.
Proof.
  induction 1 as [|d l Hd _ IH]; [done|].
  rewrite filter_cons, decide_True by done. by rewrite IH.
Qed.

(** *** Rendering the drones *)

(** A drone that is on the map is rendered again without a change of the
    marker table. *)
Lemma renderDrone_on_map (markers : gset string) (drone : DroneRecord) :
  on_map markers drone → renderDrone markers drone = Ok markers.
Proof.
  intros (reg & path & Hreg & Hin & Hpath). unfold renderDrone.
  rewrite Hreg, Hpath. unfold markerSlot.
  rewrite bool_decide_eq_true_2 by done. done.
Qed.

Lemma on_map_mono (markers markers' : gset string) (drone : DroneRecord) :
  markers ⊆ markers' → on_map markers drone → on_map markers' drone.
Proof.
  intros Hsub (reg & path & Hreg & Hin & Hpath).
  exists reg, path. split; [done|]. split; [by apply Hsub|done].
Qed.

(** What a returning render of one drone has done. *)
Lemma renderDrone_Ok_inv (markers markers' : gset string)
    (drone : DroneRecord) :
  renderDrone markers drone = Ok markers' →
  markers ⊆ markers'
  ∧ on_map markers' drone
  ∧ (plain_markers markers → plain_markers markers').
Proof.
  unfold renderDrone.
  destruct (registration_of drone) as [| |reg] eqn:Hreg; [done..|].
  unfold getDroneStatus, secondSegmentStartsWith.
  cbn [mbind result_bind]. unfold markerSlot.
  case_bool_decide as Hown; [|case_bool_decide as Hproto]; cbn [mbind result_bind].
  - destruct (flightPath drone) as [path|] eqn:Hpath; [|done].
    intros [= <-]. split; [done|]. split; [|done]. by exists reg, path.
  - done.
  - destruct (flightPath drone) as [path|] eqn:Hpath; [|done].
    intros [= <-]. split; [set_solver|]. split.
    + exists reg, path. split; [done|]. split; [set_solver|done].
    + intros Hplain key Hkey [->%elem_of_singleton|Hin]%elem_of_union.
      * done.
      * by apply (Hplain key).
Qed.

Lemma render_on_map (markers : gset string) (drones : list DroneRecord) :
  Forall (on_map markers) drones →
  forEachM renderDrone drones markers = Ok markers.
Proof.
  induction 1 as [|drone drones Hdrone _ IH]; [done|].
  cbn. by rewrite (renderDrone_on_map _ _ Hdrone).
Qed.

Lemma render_Ok_inv (drones : list DroneRecord) (markers markers' : gset string) :
  forEachM renderDrone drones markers = Ok markers' →
  markers ⊆ markers'
  ∧ Forall (on_map markers') drones
  ∧ (plain_markers markers → plain_markers markers').
Proof.
  revert markers. induction drones as [|drone drones IH]; intros markers.
  - intros [= <-]. by repeat split.
  - cbn. destruct (renderDrone markers drone) as [m1|] eqn:Hdrone; [|done].
    cbn. intros (Hsub & Hall & Hplain)%IH.
    destruct (renderDrone_Ok_inv _ _ _ Hdrone) as (Hsub1 & Hon & Hplain1).
    split; [by etrans|]. split; [|by auto].
    constructor; [|done]. by eapply on_map_mono.
Qed.

(** A drone named like an inherited property cannot be rendered. *)
Lemma render_inherited (drones : list DroneRecord) (markers : gset string)
    (drone : DroneRecord) (reg : string) :
  plain_markers markers →
  drone ∈ drones →
  registration_of drone = PStr reg →
  reg ∈ OBJECT_PROTOTYPE_KEYS →
  forEachM renderDrone drones markers = TypeError.
Proof.
  intros Hplain Hdrone Hreg Hproto. revert markers Hplain.
  induction drones as [|x drones IH]; intros markers Hplain.
  - by apply elem_of_nil in Hdrone.
  - cbn. destruct (renderDrone markers x) as [m1|] eqn:Hx; [|done]. cbn.
    apply elem_of_cons in Hdrone as [<-|Hdrone].
    + exfalso. revert Hx. unfold renderDrone. rewrite Hreg.
      unfold getDroneStatus, secondSegmentStartsWith, markerSlot.
      cbn [mbind result_bind].
      rewrite bool_decide_eq_false_2 by (by apply Hplain).
      by rewrite bool_decide_eq_true_2.
    + apply IH; [done|].
      by apply (renderDrone_Ok_inv _ _ _ Hx).
Qed.

(** *** The markers effect *)

Lemma tracked_spec (s : MapState) (reg : string) :
  tracked s reg = true
  ↔ ∃ drone, drone ∈ droneData s ∧ registration_of drone = PStr reg.
Proof.
  unfold tracked. rewrite existsb_exists. split.
  - intros (drone & Hin & Heq). exists drone.
    split; [by apply list_elem_of_In|].
    destruct (registration_of drone) as [| |r]; cbn in Heq; try done.
    f_equal. by apply String.eqb_eq.
  - intros (drone & Hin & Hreg). exists drone.
    split; [by apply list_elem_of_In|].
    rewrite Hreg. cbn. apply String.eqb_refl.
Qed.

(** On a page that shows every drone, a registration found in
    [droneData] has a marker of its own. *)
Lemma tracked_marker (s : MapState) (reg : string) :
  Forall (on_map (markersRef s)) (droneData s) →
  tracked s reg = true →
  reg ∈ markersRef s.
Proof.
  intros Hall (drone & Hin & Hreg)%tracked_spec.
  destruct (proj1 (Forall_forall _ _) Hall drone Hin)
    as (reg' & path & Hreg' & Hmarker & _).
  congruence.
Qed.

(** The markers effect, read backwards from its result. *)
Lemma markersEffect_Ok_inv (now : Z) (s s' : MapState) :
  mapRef s = true →
  markersEffect now s = Ok s' →
  ∃ markers,
    forEachM renderDrone (droneData s) (markersRef s) = Ok markers
    ∧ s' = {| selectedDrone := selectedDrone s;
              droneData := droneData s;
              droneStats := droneStats s;
              mapRef := true;
              markersRef := markers;
              isProgrammaticMove :=
                if follows s then true else isProgrammaticMove s;
              timers :=
                if follows s then timers s ++ [(now + ANIMATION_BUFFER)%Z]
                else timers s;
              flights :=
                match selectedDrone s with
                | Some reg =>
                    if follows s then flights s ++ [(reg, now)] else flights s
                | None => flights s
                end |}.
Proof.
  intros Hmap. unfold markersEffect. rewrite Hmap.
  destruct (forEachM renderDrone (droneData s) (markersRef s))
    as [markers|] eqn:Hrender; [|done].
  cbn [mbind result_bind]. intros [= <-]. exists markers. split; [done|].
  destruct (render_Ok_inv _ _ _ Hrender) as (_ & Hall & _).
  unfold follows. destruct (selectedDrone s) as [reg|]; [|done].
  fold (tracked s reg).
  destruct (tracked s reg) eqn:Htracked; [|by rewrite !andb_false_r].
  assert (reg ∈ markers) as Hmarker.
  { apply (tracked_marker
             {| selectedDrone := None; droneData := droneData s;
                droneStats := droneStats s; mapRef := true;
                markersRef := markers; isProgrammaticMove := false;
                timers := []; flights := [] |}); done. }
  unfold markerSlot. rewrite bool_decide_eq_true_2 by done.
  cbn [truthy_slot]. by rewrite !andb_true_r.
Qed.

(** On a page that shows every drone the effect returns and leaves the
    marker table as it is. *)
Lemma markersEffect_rendered (now : Z) (s : MapState) :
  rendered s →
  markersEffect now s
  = Ok {| selectedDrone := selectedDrone s;
          droneData := droneData s;
          droneStats := droneStats s;
          mapRef := true;
          markersRef := markersRef s;
          isProgrammaticMove :=
            if follows s then true else isProgrammaticMove s;
          timers :=
            if follows s then timers s ++ [(now + ANIMATION_BUFFER)%Z]
            else timers s;
          flights :=
            match selectedDrone s with
            | Some reg =>
                if follows s then flights s ++ [(reg, now)] else flights s
            | None => flights s
            end |}.
Proof.
  intros [Hmap Hall].
  destruct (markersEffect now s) as [s'|] eqn:Heffect.
  - destruct (markersEffect_Ok_inv _ _ _ Hmap Heffect) as (markers & Hm & ->).
    rewrite (render_on_map _ _ Hall) in Hm. by injection Hm as <-.
  - exfalso. revert Heffect. unfold markersEffect.
    by rewrite Hmap, (render_on_map _ _ Hall).
Qed.

(** [setSelectedDrone] with a new value, on a page that shows every
    drone. *)
Lemma setSelectedDrone_rendered (now : Z) (v : option string) (s : MapState) :
  rendered s →
  selectedDrone s ≠ v →
  setSelectedDrone now v s
  = let fly := match v with
               | Some reg => truthy_string reg && tracked s reg
               | None => false
               end in
    Ok {| selectedDrone := v;
          droneData := droneData s;
          droneStats := droneStats s;
          mapRef := true;
          markersRef := markersRef s;
          isProgrammaticMove := if fly then true else isProgrammaticMove s;
          timers :=
            if fly then timers s ++ [(now + ANIMATION_BUFFER)%Z] else timers s;
          flights :=
            match v with
            | Some reg => if fly then flights s ++ [(reg, now)] else flights s
            | None => flights s
            end |}.
Proof.
  intros Hs Hv. unfold setSelectedDrone.
  rewrite bool_decide_eq_false_2 by done.
  rewrite markersEffect_rendered by done. done.
Qed.

(** Clearing the selection changes nothing else. *)
Lemma setSelectedDrone_None (now : Z) (s : MapState) :
  rendered s →
  ∃ s', setSelectedDrone now None s = Ok s'
        ∧ selectedDrone s' = None
        ∧ droneData s' = droneData s
        ∧ droneStats s' = droneStats s
        ∧ mapRef s' = mapRef s
        ∧ markersRef s' = markersRef s
        ∧ isProgrammaticMove s' = isProgrammaticMove s
        ∧ timers s' = timers s
        ∧ flights s' = flights s.
Proof.
  intros Hs. destruct (decide (selectedDrone s = None)) as [Hsel|Hsel].
  - exists s. unfold setSelectedDrone.
    by rewrite bool_decide_eq_true_2 by done.
  - rewrite setSelectedDrone_rendered by done. eexists. split; [done|].
    destruct Hs as [-> _]. by repeat split.
Qed.

(** *** The invariant of the page *)

Lemma fireTimers_armed (now : Z) (s : MapState) :
  armed s → armed (fireTimers now s).
Proof.
  unfold armed, fireTimers. cbn.
  destruct (filter (λ d, (d ≤ now)%Z) (timers s)) as [|d due] eqn:Hdue;
    [|done].
  rewrite (filter_none_due _ _ Hdue). done.
Qed.

Lemma fireTimers_consistent (now : Z) (s : MapState) :
  consistent s → consistent (fireTimers now s).
Proof.
  intros (Hrendered & Hplain & Harmed & Hreach & Hstats).
  split; [done|]. split; [done|]. split; [by apply fireTimers_armed|done].
Qed.

(** The effect keeps the page consistent apart from the statistics,
    which it does not touch. *)
Lemma markersEffect_consistent (now : Z) (s s' : MapState) :
  mapRef s = true →
  plain_markers (markersRef s) →
  armed s →
  markersEffect now s = Ok s' →
  rendered s'
  ∧ plain_markers (markersRef s')
  ∧ armed s'
  ∧ selectedDrone s' = selectedDrone s
  ∧ droneData s' = droneData s
  ∧ droneStats s' = droneStats s.
Proof.
  intros Hmap Hplain Harmed (markers & Hrender & ->)%markersEffect_Ok_inv;
    [|done].
  destruct (render_Ok_inv _ _ _ Hrender) as (_ & Hall & Hplain').
  split; [done|]. split; [by auto|]. split; [|done].
  unfold armed in *. cbn. destruct (follows s); [|done].
  intros _. by destruct (timers s).
Qed.

Lemma setSelectedDrone_consistent (now : Z) (v : option string)
    (s s' : MapState) :
  consistent s → setSelectedDrone now v s = Ok s' → consistent s'.
Proof.
  intros (Hrendered & Hplain & Harmed & Hreach & Hstats).
  unfold setSelectedDrone. case_bool_decide as Hv.
  - intros [= <-]. done.
  - intros (? & ? & ? & _ & Hdata & Hst)%markersEffect_consistent;
      [|apply Hrendered|done|done].
    cbn in Hdata, Hst. split; [done|]. split; [done|]. split; [done|].
    by rewrite Hdata, Hst.
Qed.

Lemma handleMessage_consistent (now : Z) (features : list Feature)
    (s s' : MapState) :
  consistent s → handleMessage now features s = Ok s' → consistent s'.
Proof.
  intros (Hrendered & Hplain & Harmed & Hreach & Hstats).
  unfold handleMessage.
  destruct (mergeDroneData (droneData s) features) as [data|] eqn:Hmerge;
    [|done].
  cbn [mbind result_bind].
  destruct (markersEffect _ _) as [s1|] eqn:Heffect; [|done].
  cbn [mbind result_bind].
  destruct (calculateDroneStats data) as [stats|] eqn:Hcount; [|done].
  cbn [mbind result_bind]. intros [= <-].
  apply markersEffect_consistent in Heffect
    as (Hrendered1 & Hplain1 & Harmed1 & _ & Hdata & _);
    [|apply Hrendered|done|done].
  cbn in Hdata. split; [done|]. split; [done|]. split; [done|].
  cbn. rewrite Hdata. split; [|done].
  by apply (reachable_merge (droneData s) features).
Qed.

Lemma handle_consistent (now : Z) (ev : event) (s s' : MapState) :
  consistent s → handle now ev s = Ok s' → consistent s'.
Proof.
  intros Hs%(fireTimers_consistent now). unfold handle.
  destruct ev as [reg|kind|features].
  - by apply setSelectedDrone_consistent.
  - unfold resetSelection. destruct (isProgrammaticMove _).
    + by intros [= <-].
    + by apply setSelectedDrone_consistent.
  - by apply handleMessage_consistent.
Qed.

Lemma run_consistent (evs : list (Z * event)) (s s' : MapState) :
  consistent s → run evs s = Ok s' → consistent s'.
Proof.
  unfold run. revert s.
  induction evs as [|[now ev] evs IH]; intros s Hs; cbn.
  - by intros [= <-].
  - destruct (handle now ev s) as [s1|] eqn:Hev; [|done]. cbn.
    apply IH. by eapply handle_consistent.
Qed.

Lemma mounted_consistent : consistent mounted.
Proof.
  split; [by split; [|constructor]|].
  split; [by intros key _ ?%elem_of_empty|].
  split; [done|]. split; [apply reachable_init|done].
Qed.

Lemma session_consistent (s : MapState) : session s → consistent s.
Proof.
  intros [evs Hrun]. eapply run_consistent; [|exact Hrun].
  apply mounted_consistent.
Qed.

(** *** Selections and interactions *)

(** No timeout is due by [now] exactly when all are later than [now]. *)
Lemma filter_due_nil (now : Z) (l : list Z) :
  filter (λ d, (d ≤ now)%Z) l = [] ↔ Forall (λ d, (now < d)%Z) l.
Proof.
  induction l as [|d l IH]; [done|]. rewrite filter_cons, Forall_cons.
  destruct (decide (d ≤ now)%Z) as [Hd|Hd].
  - split; [done|]. intros [? _]. lia.
  - rewrite IH. split; [|by intros [_ ?]]. intros Hl. split; [lia|done].
Qed.

(** The flag as an event arriving at [now] finds it. *)
Lemma fireTimers_flag (now : Z) (s : MapState) :
  isProgrammaticMove (fireTimers now s)
  = if bool_decide (Forall (λ d, (now < d)%Z) (timers s))
    then isProgrammaticMove s else false.
Proof.
  unfold fireTimers. cbn.
  destruct (filter (λ d, (d ≤ now)%Z) (timers s)) as [|d due] eqn:Hdue.
  - by rewrite bool_decide_eq_true_2 by (by apply filter_due_nil).
  - rewrite bool_decide_eq_false_2; [done|].
    intros Hl%filter_due_nil. congruence.
Qed.

Lemma fireTimers_rendered (now : Z) (s : MapState) :
  rendered s → rendered (fireTimers now s).
Proof. done. Qed.

(** An interaction that finds the flag raised changes nothing. *)
Lemma interact_guarded (now : Z) (kind : interaction) (s : MapState) :
  isProgrammaticMove (fireTimers now s) = true →
  handle now (Interact kind) s = Ok (fireTimers now s).
Proof. intros Hflag. unfold handle, resetSelection. by rewrite Hflag. Qed.

(** An interaction that finds the flag lowered clears the selection. *)
Lemma interact_unguarded (now : Z) (kind : interaction) (s : MapState) :
  rendered s →
  isProgrammaticMove (fireTimers now s) = false →
  ∃ s', handle now (Interact kind) s = Ok s' ∧ selection s' = Unselected.
Proof.
  intros Hs%(fireTimers_rendered now) Hflag.
  unfold handle, resetSelection. rewrite Hflag.
  destruct (setSelectedDrone_None now _ Hs) as (s' & -> & Hsel & _).
  exists s'. split; [done|]. unfold selection. by rewrite Hsel.
Qed.

(** The state after a click on [reg]. *)
Lemma select_result (now : Z) (reg : string) (s : MapState) :
  rendered s →
  selectedDrone s ≠ Some reg →
  handle now (Select reg) s
  = let fly := truthy_string reg && tracked s reg in
    Ok {| selectedDrone := Some reg;
          droneData := droneData s;
          droneStats := droneStats s;
          mapRef := true;
          markersRef := markersRef s;
          isProgrammaticMove :=
            if fly then true else isProgrammaticMove (fireTimers now s);
          timers :=
            if fly
            then filter (λ d, (now < d)%Z) (timers s)
                 ++ [(now + ANIMATION_BUFFER)%Z]
            else filter (λ d, (now < d)%Z) (timers s);
          flights := if fly then flights s ++ [(reg, now)] else flights s |}.
Proof.
  intros Hs%(fireTimers_rendered now) Hsel. unfold handle.
  by rewrite setSelectedDrone_rendered.
Qed.

(** A timeout that is pending and due lowers the flag. *)
Lemma fireTimers_due (now d : Z) (s : MapState) :
  d ∈ timers s → (d ≤ now)%Z → isProgrammaticMove (fireTimers now s) = false.
Proof.
  intros Hd Hdue. rewrite fireTimers_flag.
  rewrite bool_decide_eq_false_2; [done|].
  intros Hall. pose proof (proj1 (Forall_forall _ _) Hall d Hd) as Hlate.
  cbn in Hlate. lia.
Qed.

(** *** The camera-fly guard *)

(** C6. The guard does not cover the flight of a selection made while a
    timeout of an earlier flight is pending.  In a state of a session with
    no drone selected, selecting at [t0] a drone [r] of [droneData] with a
    non-empty registration yields [Selected r], raises the flag and starts
    the flight to [r], which lasts [FLY_DURATION]; the guard window so
    opened lasts [ANIMATION_BUFFER], which is longer.  But when a timeout
    [d] set for an earlier flight is still pending at [t0], an interaction
    (pan, zoom, double click, touch, background click) that arrives at [t],
    once [d] is due and while the camera is still flying, with nothing in
    between, finds the flag lowered and yields Unselected. *)
Theorem stale_timeout_breaks_guard (s : MapState) (r : string) (t0 d t : Z)
    (kind : interaction) :
  session s →
  selection s = Unselected →
  truthy_string r = true →
  tracked s r = true →
  d ∈ timers s →
  (t0 < d ≤ t)%Z →
  (t < t0 + FLY_DURATION)%Z →
  ∃ s1 s2,
    handle t0 (Select r) s = Ok s1
    ∧ selection s1 = Selected r
    ∧ isProgrammaticMove s1 = true
    ∧ last (flights s1) = Some (r, t0)
    ∧ last (timers s1) = Some (t0 + ANIMATION_BUFFER)%Z
    ∧ (t0 < t < t0 + FLY_DURATION)%Z
    ∧ (FLY_DURATION < ANIMATION_BUFFER)%Z
    ∧ handle t (Interact kind) s1 = Ok s2
    ∧ selection s2 = Unselected.
Proof.
  intros (Hrendered & _)%session_consistent Hsel Htruthy Htracked Hd Hdue Ht.
  assert (selectedDrone s ≠ Some r) as Hsel1.
  { unfold selection in Hsel. by destruct (selectedDrone s). }
  rewrite (select_result t0 r s Hrendered Hsel1).
  rewrite Htruthy, Htracked. cbn [andb].
  set (s1 := {| selectedDrone := Some r |}).
  destruct (interact_unguarded t kind s1) as (s2 & Hs2 & Hsel2).
  { split; [done|apply Hrendered]. }
  { apply (fireTimers_due t d); [|lia].
    apply elem_of_app. left. apply list_elem_of_filter. split; [lia|done]. }
  exists s1, s2. split; [done|]. split; [done|]. split; [done|].
  split; [apply last_snoc|]. split; [apply last_snoc|].
  split; [lia|]. split; [done|]. done.
Qed.

Lemma stale_timeout_breaks_guard_witness :
  ∃ s,
    run [(0, Message first_message); (1000, Select "R1"); (1900, Select "R2");
         (2200, Interact DragStart)]%Z mounted = Ok s
    ∧ selection s = Unselected
    ∧ timers s = [3000%Z]
    ∧ ∃ s1 s2,
        handle 2300 (Select "R1") s = Ok s1
        ∧ selection s1 = Selected "R1"
        ∧ isProgrammaticMove s1 = true
        ∧ last (flights s1) = Some ("R1", 2300%Z)
        ∧ last (timers s1) = Some (2300 + ANIMATION_BUFFER)%Z
        ∧ (2300 < 3100 < 2300 + FLY_DURATION)%Z
        ∧ (FLY_DURATION < ANIMATION_BUFFER)%Z
        ∧ handle 3100 (Interact DragStart) s1 = Ok s2
        ∧ selection s2 = Unselected.
Proof.
  eexists. split; [vm_compute; reflexivity|].
  split; [reflexivity|]. split; [reflexivity|].
  apply (stale_timeout_breaks_guard _ "R1" 2300 3000 3100 DragStart).
  - exists [(0, Message first_message); (1000, Select "R1");
            (1900, Select "R2"); (2200, Interact DragStart)]%Z.
    vm_compute. reflexivity.
  - reflexivity.
  - reflexivity.
  - vm_compute. reflexivity.
  - apply list_elem_of_here.
  - lia.
  - unfold FLY_DURATION. lia.
Defined.

(** X12. The guard cannot lock a selection: in every state the page
    reaches from its mount by selections, interactions and feed messages,
    a user interaction that arrives when every pending timeout is due
    returns and yields Unselected. *)
Theorem interaction_after_timeouts (s : MapState) (kind : interaction) (t : Z) :
  session s →
  Forall (λ d, (d ≤ t)%Z) (timers s) →
  ∃ s', handle t (Interact kind) s = Ok s' ∧ selection s' = Unselected.
Proof.
  intros (Hrendered & _ & Harmed & _)%session_consistent Hdue.
  apply interact_unguarded; [done|].
  unfold fireTimers. cbn. rewrite (filter_all_due _ _ Hdue).
  destruct (timers s) as [|d l] eqn:Htimers; [|done].
  unfold armed in Harmed. rewrite Htimers in Harmed.
  destruct (isProgrammaticMove s); [by destruct Harmed|done].
Qed.

Lemma interaction_after_timeouts_witness :
  ∃ s,
    run [(0, Message first_message); (1000, Select "R1");
         (1500, Message first_message); (1900, Select "R2")]%Z mounted = Ok s
    ∧ ∃ s', handle 3000 (Interact Wheel) s = Ok s' ∧ selection s' = Unselected.
Proof.
  eexists. split; [vm_compute; reflexivity|].
  apply interaction_after_timeouts.
  - exists [(0, Message first_message); (1000, Select "R1");
            (1500, Message first_message); (1900, Select "R2")]%Z.
    vm_compute. reflexivity.
  - vm_compute. repeat constructor; by intros [=].
Defined.

(** X13. A timeout left over from an earlier selection cuts the next
    guard window short.  In a state of a session with no drone selected,
    let [r1] be selected at [t0] and [r2] at [t1], less than
    [ANIMATION_BUFFER] later, both of them drones of [droneData] with a
    non-empty registration.  The state is then [Selected r2] with the flag
    raised, the camera flying to [r2] and the timeouts of both selections
    pending; an interaction that arrives once the timeout of [r1] is due,
    although within [ANIMATION_BUFFER] of the selection of [r2], yields
    Unselected. *)
Theorem stale_timeout_ends_guard (s : MapState) (r1 r2 : string) (t0 t1 t : Z)
    (kind : interaction) :
  session s →
  selection s = Unselected →
  truthy_string r1 = true →
  truthy_string r2 = true →
  tracked s r1 = true →
  tracked s r2 = true →
  r1 ≠ r2 →
  (t0 ≤ t1 < t0 + ANIMATION_BUFFER)%Z →
  (t0 + ANIMATION_BUFFER ≤ t < t1 + ANIMATION_BUFFER)%Z →
  ∃ s2 s3,
    run [(t0, Select r1); (t1, Select r2)] s = Ok s2
    ∧ selection s2 = Selected r2
    ∧ isProgrammaticMove s2 = true
    ∧ last (flights s2) = Some (r2, t1)
    ∧ (t0 + ANIMATION_BUFFER)%Z ∈ timers s2
    ∧ last (timers s2) = Some (t1 + ANIMATION_BUFFER)%Z
    ∧ handle t (Interact kind) s2 = Ok s3
    ∧ selection s3 = Unselected.
Proof.
  intros (Hrendered & _)%session_consistent Hsel Htruthy1 Htruthy2
    Htracked1 Htracked2 Hother Hsoon Ht.
  assert (selectedDrone s ≠ Some r1) as Hsel1.
  { unfold selection in Hsel. by destruct (selectedDrone s). }
  unfold run. cbn [forEachM fst snd].
  rewrite (select_result t0 r1 s Hrendered Hsel1).
  rewrite Htruthy1, Htracked1. cbn [andb mbind result_bind].
  set (s1 := {| selectedDrone := Some r1 |}).
  assert (rendered s1) as Hrendered1 by (split; [done|apply Hrendered]).
  rewrite (select_result t1 r2 s1 Hrendered1) by (cbn; congruence).
  assert (tracked s1 r2 = true) as -> by done.
  rewrite Htruthy2. cbn [andb mbind result_bind].
  set (s2 := {| selectedDrone := Some r2 |}).
  assert ((t0 + ANIMATION_BUFFER)%Z ∈ timers s2) as Hstale.
  { cbn. rewrite filter_app, filter_cons, filter_nil.
    rewrite decide_True by lia.
    apply elem_of_app. left. apply elem_of_app. right.
    apply list_elem_of_here. }
  destruct (interact_unguarded t kind s2) as (s3 & Hs3 & Hsel3).
  { split; [done|apply Hrendered]. }
  { apply (fireTimers_due t _ s2 Hstale). lia. }
  exists s2, s3. split; [done|]. split; [done|]. split; [done|].
  split; [apply last_snoc|]. split; [done|]. split; [apply last_snoc|].
  done.
Qed.

Lemma stale_timeout_ends_guard_witness :
  ∃ s,
    run [(0, Message first_message)]%Z mounted = Ok s
    ∧ ∃ s2 s3,
        run [(1000, Select "R1"); (1900, Select "R2")]%Z s = Ok s2
        ∧ selection s2 = Selected "R2"
        ∧ isProgrammaticMove s2 = true
        ∧ last (flights s2) = Some ("R2", 1900%Z)
        ∧ (1000 + ANIMATION_BUFFER)%Z ∈ timers s2
        ∧ last (timers s2) = Some (1900 + ANIMATION_BUFFER)%Z
        ∧ handle 2200 (Interact DragStart) s2 = Ok s3
        ∧ selection s3 = Unselected.
Proof.
  eexists. split; [vm_compute; reflexivity|].
  apply (stale_timeout_ends_guard _ "R1" "R2" 1000 1900 2200 DragStart).
  - exists [(0, Message first_message)]%Z. vm_compute. reflexivity.
  - reflexivity.
  - reflexivity.
  - reflexivity.
  - vm_compute. reflexivity.
  - vm_compute. reflexivity.
  - by intros [=].
  - unfold ANIMATION_BUFFER. lia.
  - unfold ANIMATION_BUFFER. lia.
Defined.

(** X14. Selecting a registration raises the guard only for a drone of
    the map with a non-empty registration.  In every state of a session,
    selecting a registration [r] that is not the selected one yields
    [Selected r]; the flag is then raised exactly when [r] is not the
    empty string and is the registration of a record of [droneData], or
    when the flag of an earlier flight is still raised; and when it is not
    raised the next interaction, whenever it arrives, yields Unselected. *)
Theorem select_guard_iff (s : MapState) (r : string) (t0 : Z) :
  session s →
  selectedDrone s ≠ Some r →
  ∃ s1,
    handle t0 (Select r) s = Ok s1
    ∧ selection s1 = Selected r
    ∧ (isProgrammaticMove s1 = true
       ↔ (truthy_string r = true
          ∧ ∃ drone, drone ∈ droneData s ∧ registration_of drone = PStr r)
         ∨ isProgrammaticMove (fireTimers t0 s) = true)
    ∧ (isProgrammaticMove s1 = false →
       ∀ kind t, ∃ s2, handle t (Interact kind) s1 = Ok s2
                       ∧ selection s2 = Unselected).
Proof.
  intros (Hrendered & _)%session_consistent Hsel.
  rewrite (select_result t0 r s Hrendered Hsel). cbn zeta.
  eexists. split; [done|]. split; [done|]. split.
  - cbn [isProgrammaticMove]. rewrite <- tracked_spec, <- andb_true_iff.
    destruct (truthy_string r && tracked s r).
    + split; [by left|done].
    + split; [by right|]. by intros [?|?].
  - intros Hflag kind t. apply interact_unguarded.
    { split; [done|apply Hrendered]. }
    rewrite fireTimers_flag, Hflag. by case_bool_decide.
Qed.

Lemma select_guard_iff_witness :
  ∃ s,
    run [(0, Message first_message)]%Z mounted = Ok s
    ∧ ∃ s1,
        handle 1000 (Select "R9") s = Ok s1
        ∧ selection s1 = Selected "R9"
        ∧ (isProgrammaticMove s1 = true
           ↔ (truthy_string "R9" = true
              ∧ ∃ drone, drone ∈ droneData s
                         ∧ registration_of drone = PStr "R9")
             ∨ isProgrammaticMove (fireTimers 1000 s) = true)
        ∧ (isProgrammaticMove s1 = false →
           ∀ kind t, ∃ s2, handle t (Interact kind) s1 = Ok s2
                           ∧ selection s2 = Unselected).
Proof.
  eexists. split; [vm_compute; reflexivity|].
  apply (select_guard_iff _ "R9" 1000).
  - exists [(0, Message first_message)]%Z. vm_compute. reflexivity.
  - done.
Defined.

(** The window of a selection made at [t0] is open at [t] when [t] is
    before every timeout pending after [t0], the one the selection sets
    included. *)
Lemma guard_open_iff (s : MapState) (t0 t : Z) :
  Forall (λ d, (t < d)%Z)
         (filter (λ d, (t0 < d)%Z) (timers s) ++ [(t0 + ANIMATION_BUFFER)%Z])
  ↔ (t < t0 + ANIMATION_BUFFER)%Z
    ∧ ∀ d, d ∈ timers s → (t0 < d)%Z → (t < d)%Z.
Proof.
  rewrite Forall_app, Forall_singleton, Forall_forall. split.
  - intros [Hpending Hown]. split; [done|]. intros d Hd Hlater.
    apply Hpending. by apply list_elem_of_filter.
  - intros [Hown Hpending]. split; [|done].
    intros d [Hlater Hd]%list_elem_of_filter. by apply Hpending.
Qed.

(** X20. The guard window of a selection, exactly.  In every state of a
    session with no drone selected, selecting at [t0] a drone [r] of
    [droneData] with a non-empty registration yields [Selected r], raises
    the flag and starts the flight to [r].  An interaction that arrives at
    [t], with nothing in between, returns, and it leaves [Selected r]
    exactly when [t] is less than [ANIMATION_BUFFER] after [t0] and before
    every timeout that was pending in [s] and is due after [t0]; otherwise
    it yields Unselected.  So with no such timeout the window is
    [ANIMATION_BUFFER] long. *)
Theorem guard_window_exact (s : MapState) (r : string) (t0 t : Z)
    (kind : interaction) :
  session s →
  selection s = Unselected →
  truthy_string r = true →
  tracked s r = true →
  (t0 ≤ t)%Z →
  ∃ s1 s2,
    handle t0 (Select r) s = Ok s1
    ∧ selection s1 = Selected r
    ∧ isProgrammaticMove s1 = true
    ∧ last (flights s1) = Some (r, t0)
    ∧ handle t (Interact kind) s1 = Ok s2
    ∧ (selection s2 = Selected r ∨ selection s2 = Unselected)
    ∧ (selection s2 = Selected r
       ↔ (t < t0 + ANIMATION_BUFFER)%Z
         ∧ ∀ d, d ∈ timers s → (t0 < d)%Z → (t < d)%Z)
    ∧ (Forall (λ d, (d ≤ t0)%Z) (timers s) →
       (selection s2 = Selected r ↔ (t < t0 + ANIMATION_BUFFER)%Z)).
Proof.
  intros (Hrendered & _)%session_consistent Hsel Htruthy Htracked Ht.
  assert (selectedDrone s ≠ Some r) as Hsel1.
  { unfold selection in Hsel. by destruct (selectedDrone s). }
  rewrite (select_result t0 r s Hrendered Hsel1).
  rewrite Htruthy, Htracked. cbn [andb].
  set (s1 := {| selectedDrone := Some r |}).
  assert (rendered s1) as Hrendered1 by (split; [done|apply Hrendered]).
  pose proof (fireTimers_flag t s1) as Hflag.
  cbn [timers isProgrammaticMove s1] in Hflag.
  assert (∃ s2, handle t (Interact kind) s1 = Ok s2
                ∧ (selection s2 = Selected r ∨ selection s2 = Unselected)
                ∧ (selection s2 = Selected r
                   ↔ Forall (λ d, (t < d)%Z)
                            (filter (λ d, (t0 < d)%Z) (timers s)
                             ++ [(t0 + ANIMATION_BUFFER)%Z])))
    as (s2 & Hs2 & Hcases & Hopen).
  { case_bool_decide as Hwindow.
    - rewrite (interact_guarded _ _ _ Hflag). eexists. split; [done|].
      split; [by left|]. done.
    - destruct (interact_unguarded t kind s1 Hrendered1 Hflag)
        as (s2 & -> & Hs2).
      exists s2. split; [done|]. split; [by right|].
      rewrite Hs2. split; [done|]. by intros ?. }
  rewrite guard_open_iff in Hopen.
  exists s1, s2. split; [done|]. split; [done|]. split; [done|].
  split; [apply last_snoc|]. split; [done|]. split; [done|].
  split; [done|].
  intros Hdue. rewrite Hopen. split; [by intros [? _]|].
  intros Hown. split; [done|]. intros d Hd Hlater.
  pose proof (proj1 (Forall_forall _ _) Hdue d Hd) as Hearly.
  cbn in Hearly. lia.
Qed.

Lemma guard_window_exact_witness :
  ∃ s,
    run [(0, Message first_message)]%Z mounted = Ok s
    ∧ ∃ s1 s2,
        handle 1000 (Select "R1") s = Ok s1
        ∧ selection s1 = Selected "R1"
        ∧ isProgrammaticMove s1 = true
        ∧ last (flights s1) = Some ("R1", 1000%Z)
        ∧ handle 1600 (Interact DragStart) s1 = Ok s2
        ∧ (selection s2 = Selected "R1" ∨ selection s2 = Unselected)
        ∧ (selection s2 = Selected "R1"
           ↔ (1600 < 1000 + ANIMATION_BUFFER)%Z
             ∧ ∀ d, d ∈ timers s → (1000 < d)%Z → (1600 < d)%Z)
        ∧ (Forall (λ d, (d ≤ 1000)%Z) (timers s) →
           (selection s2 = Selected "R1"
            ↔ (1600 < 1000 + ANIMATION_BUFFER)%Z)).
Proof.
  eexists. split; [vm_compute; reflexivity|].
  apply (guard_window_exact _ "R1" 1000 1600 DragStart).
  - exists [(0, Message first_message)]%Z. vm_compute. reflexivity.
  - reflexivity.
  - reflexivity.
  - vm_compute. reflexivity.
  - lia.
Defined.

(** X21. What every state of a session shows.  The counters are the
    statistics of the store, they add up and count every record; the store
    is one that merging builds; and every record has a registration string
    that has a marker of its own and is not a name that objects
    inherit. *)
Theorem page_consistent (s : MapState) :
  session s →
  calculateDroneStats (droneData s) = Ok (droneStats s)
  ∧ active (droneStats s) + inactive (droneStats s) = total (droneStats s)
  ∧ total (droneStats s) = length (droneData s)
  ∧ reachable (droneData s)
  ∧ ∀ drone, drone ∈ droneData s →
             ∃ reg, registration_of drone = PStr reg
                    ∧ reg ∈ markersRef s
                    ∧ reg ∉ OBJECT_PROTOTYPE_KEYS.
Proof.
  intros ([_ Hall] & Hplain & _ & Hreach & Hstats)%session_consistent.
  split; [done|].
  assert (active (droneStats s) + inactive (droneStats s)
          = total (droneStats s)
          ∧ total (droneStats s) = length (droneData s)) as [Hsum Htotal].
  { revert Hstats. unfold calculateDroneStats.
    destruct (filterM_partition
                (λ drone, isDroneActive (registration_of drone)) (droneData s))
      as (yes & no & -> & -> & Hlen).
    { eapply Forall_impl; [exact Hall|].
      intros drone (reg & _ & Hreg & _). apply isDroneActive_string.
      by rewrite Hreg. }
    cbn. by intros [= <-]. }
  split; [done|]. split; [done|]. split; [done|].
  intros drone Hdrone.
  destruct (proj1 (Forall_forall _ _) Hall drone Hdrone)
    as (reg & _ & Hreg & Hmarker & _).
  exists reg. split; [done|]. split; [done|].
  intros Hproto. by apply (Hplain reg).
Qed.

Lemma page_consistent_witness :
  ∃ s,
    run [(0, Message first_message); (1000, Select "R1");
         (2000, Message [update_R1])]%Z mounted = Ok s
    ∧ calculateDroneStats (droneData s) = Ok (droneStats s)
    ∧ active (droneStats s) + inactive (droneStats s) = total (droneStats s)
    ∧ total (droneStats s) = length (droneData s)
    ∧ reachable (droneData s)
    ∧ ∀ drone, drone ∈ droneData s →
               ∃ reg, registration_of drone = PStr reg
                      ∧ reg ∈ markersRef s
                      ∧ reg ∉ OBJECT_PROTOTYPE_KEYS.
Proof.
  eexists. split; [vm_compute; reflexivity|].
  apply page_consistent.
  exists [(0, Message first_message); (1000, Select "R1");
          (2000, Message [update_R1])]%Z.
  vm_compute. reflexivity.
Defined.

Lemma markersEffect_throws (now : Z) (s : MapState) :
  mapRef s = true →
  forEachM renderDrone (droneData s) (markersRef s) = TypeError →
  markersEffect now s = TypeError.
Proof. intros Hmap Hrender. unfold markersEffect. by rewrite Hmap, Hrender. Qed.

(** Every update of a batch either has its two objects or one lacks
    them. *)
Lemma has_objects_cases (features : list Feature) :
  Forall (λ u, has_objects u = true) features
  ∨ Exists (λ u, has_objects u = false) features.
Proof.
  induction features as [|u features [IH|IH]].
  - left. constructor.
  - destruct (has_objects u) eqn:Hu.
    + left. by constructor.
    + right. by constructor.
  - right. by constructor.
Qed.

(** X22. A drone named like an inherited property ends the page.  In
    every state of a session, a feed message with an update whose
    registration is one of the names every object inherits (["toString"],
    ["constructor"], ...) throws: where the merge returns, the markers
    effect reads the inherited property as the drone's marker entry and
    calls a method of its missing [marker]. *)
Theorem inherited_name_ends_page (s : MapState) (now : Z)
    (features : list Feature) (u : Feature) (reg : string) :
  session s →
  u ∈ features →
  update_registration u = PStr reg →
  reg ∈ OBJECT_PROTOTYPE_KEYS →
  handle now (Message features) s = TypeError.
Proof.
  intros ([Hmap _] & Hplain & _)%session_consistent Hu Hreg Hproto.
  unfold handle, handleMessage.
  change (droneData (fireTimers now s)) with (droneData s).
  destruct (has_objects_cases features) as [Hall|Hex].
  2:{ by rewrite (mergeDroneData_throws _ _ Hex). }
  destruct (mergeDroneData_applies features (droneData s) Hall)
    as (data & -> & _ & _ & Hrec).
  cbn [mbind result_bind].
  destruct (Hrec u Hu) as (drone & Hdrone & Hname & _).
  { by rewrite Hreg. }
  rewrite markersEffect_throws; [done|exact Hmap|].
  apply (render_inherited data (markersRef s) drone reg); try done.
  by rewrite <- Hreg.
Qed.

Lemma inherited_name_ends_page_witness :
  ∃ s,
    run [(0, Message first_message); (1000, Select "R1")]%Z mounted = Ok s
    ∧ handle 2000 (Message [update_R1; feature "toString" "Dji Air" (1, 2)%float])
             s = TypeError.
Proof.
  eexists. split; [vm_compute; reflexivity|].
  apply (inherited_name_ends_page _ 2000 _
           (feature "toString" "Dji Air" (1, 2)%float) "toString").
  - exists [(0, Message first_message); (1000, Select "R1")]%Z.
    vm_compute. reflexivity.
  - apply list_elem_of_further, list_elem_of_here.
  - reflexivity.
  - unfold OBJECT_PROTOTYPE_KEYS. set_solver.
Defined.

(** A registration string found in the store is still found after a
    merge. *)
Lemma mergeDroneData_keeps_tracked (previousData data : list DroneRecord)
    (features : list Feature) (reg : string) :
  Forall history_ok previousData →
  mergeDroneData previousData features = Ok data →
  (∃ drone, drone ∈ previousData ∧ registration_of drone = PStr reg) →
  ∃ drone, drone ∈ data ∧ registration_of drone = PStr reg.
Proof.
  intros Hhist Hmerge (drone & Hdrone & Hreg).
  destruct (has_objects_cases features) as [Hall|Hex].
  2:{ by rewrite (mergeDroneData_throws _ _ Hex) in Hmerge. }
  destruct (mergeDroneData_applies features previousData Hall)
    as (data' & Hmerge' & _ & Hkeep & _).
  assert (data' = data) as -> by congruence.
  destruct (proj1 (Forall_forall _ _) Hhist drone Hdrone) as [Hpos _].
  destruct (positions drone) as [|c l] eqn:Hc; [done|].
  destruct (Hkeep (PStr reg) c) as (drone' & Hdrone' & Hreg' & _); [done| |].
  - exists drone. split; [done|]. split; [done|].
    rewrite Hc. apply list_elem_of_here.
  - by exists drone'.
Qed.

(** X23. Every feed message sends the camera to the selected drone
    again.  In a state of a session in which a drone [r] of [droneData]
    with a non-empty registration is selected, a feed message that is
    handled without an exception leaves [r] selected, raises the flag,
    starts a flight to [r] and adds a timeout to the pending ones, none of
    which is cancelled; an interaction that arrives once one of those
    earlier timeouts is due, with nothing in between, yields Unselected,
    however recent the flight. *)
Theorem message_flies_again (s s' : MapState) (now : Z)
    (features : list Feature) (r : string) :
  session s →
  selectedDrone s = Some r →
  truthy_string r = true →
  tracked s r = true →
  handle now (Message features) s = Ok s' →
  selection s' = Selected r
  ∧ isProgrammaticMove s' = true
  ∧ last (flights s') = Some (r, now)
  ∧ timers s'
    = filter (λ d, (now < d)%Z) (timers s) ++ [(now + ANIMATION_BUFFER)%Z]
  ∧ ∀ d kind t,
      d ∈ timers s → (now < d ≤ t)%Z →
      ∃ s'', handle t (Interact kind) s' = Ok s'' ∧ selection s'' = Unselected.
Proof.
  intros Hs%session_consistent Hsel Htruthy Htracked Hhandle.
  pose proof (handle_consistent _ _ _ _ Hs Hhandle) as (Hrendered' & _).
  destruct Hs as ([Hmap _] & _ & _ & Hreach%reachable_history & _).
  revert Hhandle. unfold handle, handleMessage.
  change (droneData (fireTimers now s)) with (droneData s).
  destruct (mergeDroneData (droneData s) features) as [data|] eqn:Hmerge;
    [|done].
  cbn [mbind result_bind].
  destruct (markersEffect _ _) as [s1|] eqn:Heffect; [|done].
  cbn [mbind result_bind].
  destruct (calculateDroneStats data) as [stats|]; [|done].
  cbn [mbind result_bind]. intros [= Hs'].
  apply markersEffect_Ok_inv in Heffect as (markers & _ & ->); [|exact Hmap].
  assert (follows {| selectedDrone := selectedDrone (fireTimers now s);
                     droneData := data;
                     droneStats := droneStats (fireTimers now s);
                     mapRef := mapRef (fireTimers now s);
                     markersRef := markersRef (fireTimers now s);
                     isProgrammaticMove :=
                       isProgrammaticMove (fireTimers now s);
                     timers := timers (fireTimers now s);
                     flights := flights (fireTimers now s) |} = true)
    as Hfollows.
  { unfold follows. cbn [selectedDrone fireTimers]. rewrite Hsel, Htruthy.
    apply tracked_spec. cbn [droneData].
    apply (mergeDroneData_keeps_tracked (droneData s) data features);
      [done..|].
    by apply tracked_spec. }
  rewrite Hfollows in Hs'. cbn in Hs'. rewrite Hsel in Hs'.
  assert (timers s'
          = filter (λ d, (now < d)%Z) (timers s)
            ++ [(now + ANIMATION_BUFFER)%Z]) as Htimers by (by subst s').
  split; [by subst s'|]. split; [by subst s'|].
  split; [subst s'; apply last_snoc|]. split; [done|].
  intros d kind t Hd Hdue. apply (interact_unguarded t kind s'); [done|].
  apply (fireTimers_due t d); [|lia].
  rewrite Htimers. apply elem_of_app. left.
  apply list_elem_of_filter. split; [lia|done].
Qed.

Lemma message_flies_again_witness :
  ∃ s s',
    run [(0, Message first_message); (1000, Select "R1")]%Z mounted = Ok s
    ∧ handle 2000 (Message [update_R1]) s = Ok s'
    ∧ selection s' = Selected "R1"
    ∧ isProgrammaticMove s' = true
    ∧ last (flights s') = Some ("R1", 2000%Z)
    ∧ timers s'
      = filter (λ d, (2000 < d)%Z) (timers s)
        ++ [(2000 + ANIMATION_BUFFER)%Z]
    ∧ ∀ d kind t,
        d ∈ timers s → (2000 < d ≤ t)%Z →
        ∃ s'', handle t (Interact kind) s' = Ok s''
               ∧ selection s'' = Unselected.
Proof.
  do 2 eexists. split; [vm_compute; reflexivity|].
  split; [vm_compute; reflexivity|].
  apply (message_flies_again _ _ 2000 [update_R1] "R1").
  - exists [(0, Message first_message); (1000, Select "R1")]%Z.
    vm_compute. reflexivity.
  - reflexivity.
  - reflexivity.
  - vm_compute. reflexivity.
  - vm_compute. reflexivity.
Defined.
